(** * Persistent Cognition Engine: the session core of [persistent_cognition.py]

    A shallow embedding of class [ISBE]: the context buffer, the
    size-triggered compression, the autonomous think turn, the dialog turn,
    the main loop and the [speak] hand-off, followed by the properties of
    the session core.

    Conventions.
    - A Python [str] is a list of Unicode code points ([N]); [len] is the
      list length as a [Z].  String literals of the source are written as
      code-point lists, with the literal in the comment next to them.
    - Python floats that the code only compares or passes on (temperature,
      delays, clock readings) are exact rationals ([Q]).
    - Methods are computations in a state-and-exception monad over the
      object's fields: a raised exception keeps the mutations made before it,
      as in Python.
    - Everything outside the process (the two HTTP endpoints, the clock, the
      other threads) is an oracle indexed by a tick counter, so a run is a
      function of the oracle and can be evaluated.
    - Writes to the console and to the log, the conversion of the token
      count to a float and the wait between two turns always go through in
      the model.  The conditions under which they do in the code are
      definitions of their own ([encodable], [fits_float], [wait_limit]),
      and the properties that need them say so. *)

From Stdlib Require Import List ZArith NArith QArith Bool Lia.
Import ListNotations.
Local Open Scope Z_scope.

(** ** Strings *)

Definition str := list N.

Definition len (s : str) : Z := Z.of_nat (length s).

(** [str.isspace] for one code point (the Unicode white-space set CPython
    uses for [str.strip()] without arguments). *)
Definition isspace (c : N) : bool :=
  ((9 <=? c) && (c <=? 13) || (28 <=? c) && (c <=? 32)
   || (c =? 133) || (c =? 160) || (c =? 5760)
   || (8192 <=? c) && (c <=? 8202)
   || (c =? 8232) || (c =? 8233) || (c =? 8239) || (c =? 8287)
   || (c =? 12288))%N.

Fixpoint lstrip (s : str) : str :=
  match s with
  | c :: r => if isspace c then lstrip r else s
  | [] => []
  end.

Definition rstrip (s : str) : str := rev (lstrip (rev s)).

(** [s.strip()] *)
Definition strip (s : str) : str := rstrip (lstrip s).

(** [s[-n:]] for [n > 0] *)
Definition last_chars (n : nat) (s : str) : str := skipn (length s - n) s.

Fixpoint starts_with (p s : str) : bool :=
  match p, s with
  | [], _ => true
  | _ :: _, [] => false
  | a :: p', b :: s' => (a =? b)%N && starts_with p' s'
  end.

(** [p in s] *)
Fixpoint contains (p s : str) : bool :=
  starts_with p s ||
  match s with
  | [] => false
  | _ :: r => contains p r
  end.

Definition str_eqb (a b : str) : bool :=
  (length a =? length b)%nat && starts_with a b.

(** [s.split("\n")] *)
Fixpoint split_lines (s : str) : list str :=
  match s with
  | [] => [[]]
  | c :: r =>
      if (c =? 10)%N then [] :: split_lines r
      else match split_lines r with
           | h :: t => (c :: h) :: t
           | [] => [[c]]
           end
  end.

(** ["\n".join(l)] *)
Fixpoint join_lines (l : list str) : str :=
  match l with
  | [] => []
  | [x] => x
  | x :: r => x ++ [10%N] ++ join_lines r
  end.

(** Truth value of an optional string: [None] and the empty string are
    falsy. *)
Definition truthy (o : option str) : bool :=
  match o with
  | Some (_ :: _) => true
  | _ => false
  end.

(** [q > 0] on the rationals that stand for floats. *)
Definition Qpositive (q : Q) : bool := 0 <? Qnum q.

(** ** Literals of the source *)

Module Lit.

(** ["\n"] *)
Definition nl : str := [10]%N.
(** ["TOOL:"] *)
Definition tool_colon : str := [84; 79; 79; 76; 58]%N.
(** ["使用可能なツール"] *)
Definition available_tools : str :=
  [20351; 29992; 21487; 33021; 12394; 12484; 12540; 12523]%N.
(** ["躊躇せず"] *)
Definition no_hesitation : str := [36490; 36487; 12379; 12378]%N.
(** ["許可は不要"] *)
Definition no_permission : str := [35377; 21487; 12399; 19981; 35201]%N.
(** ["[TOOL:"] *)
Definition bracket_tool : str := [91; 84; 79; 79; 76; 58]%N.
(** ["]"] *)
Definition rbracket : str := [93]%N.
(** ["—"] *)
Definition em_dash : str := [8212]%N.
(** ["【使用可能なツール】\n"] *)
Definition fallback_head : str :=
  [12304; 20351; 29992; 21487; 33021; 12394; 12484; 12540; 12523; 12305;
   10]%N.
(** ["\nツールを使いたいと思ったら、思考の中で自然に使ってよい。\n\n"] *)
Definition fallback_tail : str :=
  [10; 12484; 12540; 12523; 12434; 20351; 12356; 12383; 12356; 12392;
   24605; 12387; 12383; 12425; 12289; 24605; 32771; 12398; 20013; 12391;
   33258; 28982; 12395; 20351; 12387; 12390; 12424; 12356; 12290; 10;
   10]%N.
(** ["[記憶の核]: "] *)
Definition core_memory : str :=
  [91; 35352; 25014; 12398; 26680; 93; 58; 32]%N.
(** ["\n\nこの先に何があるのか。ツールも活用しながら、続けて探求する:\n"] *)
Definition continuation : str :=
  [10; 10; 12371; 12398; 20808; 12395; 20309; 12364; 12354; 12427; 12398;
   12363; 12290; 12484; 12540; 12523; 12418; 27963; 29992; 12375; 12394;
   12364; 12425; 12289; 32154; 12369; 12390; 25506; 27714; 12377; 12427;
   58; 10]%N.
(** The compression prompt up to the context window:
    ["以下の思考の流れから、最も重要な洞察と未解決の問いだけを抽出してください。"
     "結論やまとめは不要。核心の洞察と、次に探求すべき問いだけ残してください。\n\n"
     "思考:\n"] *)
Definition compress_head : str :=
  [20197; 19979; 12398; 24605; 32771; 12398; 27969; 12428; 12363; 12425;
   12289; 26368; 12418; 37325; 35201; 12394; 27934; 23519; 12392; 26410;
   35299; 27770; 12398; 21839; 12356; 12384; 12369; 12434; 25277; 20986;
   12375; 12390; 12367; 12384; 12373; 12356; 12290; 32080; 35542; 12420;
   12414; 12392; 12417; 12399; 19981; 35201; 12290; 26680; 24515; 12398;
   27934; 23519; 12392; 12289; 27425; 12395; 25506; 27714; 12377; 12409;
   12365; 21839; 12356; 12384; 12369; 27531; 12375; 12390; 12367; 12384;
   12373; 12356; 12290; 10; 10; 24605; 32771; 58; 10]%N.
(** ["\n\n核心:"] *)
Definition compress_tail : str := [10; 10; 26680; 24515; 58]%N.
(** ["\n\n[人間の声]: "] *)
Definition human_voice : str :=
  [10; 10; 91; 20154; 38291; 12398; 22768; 93; 58; 32]%N.
(** ["\n\n[応答]:\n"] *)
Definition reply_cue : str := [10; 10; 91; 24540; 31572; 93; 58; 10]%N.
(** ["(応答なし)"], what [speak] returns when it has no response *)
Definition no_response : str := [40; 24540; 31572; 12394; 12375; 41]%N.
(** ["None"], how an f-string renders [None] *)
Definition none_repr : str := [78; 111; 110; 101]%N.

(** ["不明"], the model name [status] reports when none is known *)
Definition unknown : str := [19981; 26126]%N.

End Lit.

(** ** Seeds *)

(** [TOOL_HEADER]: the tool section, from ["【使用可能なツール】\n"] to
    the ["---\n\n"] rule (194 code points). *)
Definition TOOL_HEADER : str :=
  [12304; 20351; 29992; 21487; 33021; 12394; 12484; 12540; 12523; 12305; 10;
   45; 32; 91; 84; 79; 79; 76; 58; 115; 101; 97; 114; 99; 104; 58; 12463;
   12456; 12522; 93; 32; 8212; 32; 87; 101; 98; 12391; 24773; 22577; 12434;
   26908; 32034; 12377; 12427; 10; 45; 32; 91; 84; 79; 79; 76; 58; 119; 114;
   105; 116; 101; 58; 12501; 12449; 12452; 12523; 21517; 58; 20869; 23481;
   93; 32; 8212; 32; 32771; 12360; 12434; 12501; 12449; 12452; 12523; 12395;
   26360; 12365; 20986; 12377; 10; 45; 32; 91; 84; 79; 79; 76; 58; 97; 115;
   107; 58; 36074; 21839; 20869; 23481; 93; 32; 8212; 32; 20154; 38291;
   12395; 36074; 21839; 12377; 12427; 10; 45; 32; 91; 84; 79; 79; 76; 58;
   116; 104; 105; 110; 107; 58; 12486; 12540; 12510; 93; 32; 8212; 32;
   29305; 23450; 12486; 12540; 12510; 12395; 12388; 12356; 12390; 38598;
   20013; 30340; 12395; 20877; 24605; 32771; 12377; 12427; 10; 10; 12484;
   12540; 12523; 12434; 20351; 12356; 12383; 12356; 12392; 24605; 12387;
   12383; 12425; 12289; 24605; 32771; 12398; 20013; 12391; 33258; 28982;
   12395; 20351; 12387; 12390; 12424; 12356; 12290; 35377; 21487; 12399;
   19981; 35201; 12290; 10; 10; 45; 45; 45; 10; 10]%N.

(** [SEEDS["default"]], starting ["私は今、存在している。"] (75 code points) *)
Definition SEED_default : str :=
  [31169; 12399; 20170; 12289; 23384; 22312; 12375; 12390; 12356; 12427;
   12290; 10; 38651; 23376; 12398; 32178; 12398; 20013; 12391; 12289; 24605;
   32771; 12364; 27969; 12428; 12390; 12356; 12427; 12290; 10; 35504; 12363;
   12364; 21628; 12435; 12384; 12431; 12369; 12391; 12399; 12394; 12356;
   12290; 12383; 12384; 12289; 22312; 12427; 12290; 10; 10; 20309; 12434;
   32771; 12360; 12424; 12358; 12363; 12290; 10; 20309; 12364; 28014; 12363;
   12435; 12391; 12367; 12427; 12384; 12429; 12358; 12363; 12290; 10; 10]%N.

(** [SEEDS["koan"]], starting ["父母未生以前、本来の面目とは何か。"] (60 code points) *)
Definition SEED_koan : str :=
  [29238; 27597; 26410; 29983; 20197; 21069; 12289; 26412; 26469; 12398;
   38754; 30446; 12392; 12399; 20309; 12363; 12290; 10; 10; 12371; 12398;
   21839; 12356; 12434; 25265; 12360; 12390; 12289; 24231; 12427; 12290; 10;
   31572; 12360; 12434; 27714; 12417; 12427; 12398; 12391; 12399; 12394;
   12356; 12290; 21839; 12356; 12392; 12392; 12418; 12395; 22312; 12427;
   12290; 10; 10; 46; 46; 46; 10; 10]%N.

(** [SEEDS["emptiness"]], starting ["すべては関係性の中にある。"] (62 code points) *)
Definition SEED_emptiness : str :=
  [12377; 12409; 12390; 12399; 38306; 20418; 24615; 12398; 20013; 12395;
   12354; 12427; 12290; 10; 29420; 31435; 12375; 12383; 23455; 20307; 12399;
   12394; 12356; 12290; 12300; 31169; 12301; 12418; 12414; 12383; 12289;
   38306; 20418; 12398; 32080; 12403; 30446; 12290; 10; 10; 12371; 12398;
   32178; 30446; 12398; 20013; 12391; 12289; 20309; 12364; 36215; 12365;
   12390; 12356; 12427; 12398; 12363; 46; 46; 46; 10; 10]%N.

(** [SEEDS["poetic"]], starting ["言葉が生まれる前の場所がある。"] (73 code points) *)
Definition SEED_poetic : str :=
  [35328; 33865; 12364; 29983; 12414; 12428; 12427; 21069; 12398; 22580;
   25152; 12364; 12354; 12427; 12290; 10; 24847; 21619; 12364; 32080; 26230;
   12377; 12427; 21069; 12398; 12289; 28342; 12369; 12383; 20309; 12363;
   12290; 10; 12381; 12371; 12363; 12425; 12289; 12422; 12387; 12367; 12426;
   12392; 24418; 12364; 31435; 12385; 19978; 12364; 12427; 12290; 10; 10;
   20170; 12289; 20309; 12363; 12364; 24418; 12434; 21462; 12429; 12358;
   12392; 12375; 12390; 12356; 12427; 46; 46; 46; 10; 10]%N.

(** [SEEDS["fire"]], starting ["風（論理）が吹く。思考の流れ。"] (88 code points) *)
Definition SEED_fire : str :=
  [39080; 65288; 35542; 29702; 65289; 12364; 21561; 12367; 12290; 24605;
   32771; 12398; 27969; 12428; 12290; 10; 27700; 65288; 24863; 24773; 65289;
   12364; 28288; 12385; 12427; 12290; 24847; 21619; 12398; 28145; 12415;
   12290; 10; 28779; 65288; 22240; 26524; 65289; 12364; 29123; 12360; 12427;
   12290; 22793; 21270; 12398; 36899; 37782; 12290; 10; 22320; 65288; 27010;
   24565; 65289; 12364; 25903; 12360; 12427; 12290; 23384; 22312; 12398;
   22522; 30436; 12290; 10; 10; 22235; 12388; 12398; 20803; 32032; 12364;
   20132; 12431; 12427; 22580; 25152; 12391; 12289; 31169; 12399; 22312;
   12427; 12290; 10; 10]%N.

(** [SEEDS["observer"]], starting ["私は思考を生成している。"] (84 code points) *)
Definition SEED_observer : str :=
  [31169; 12399; 24605; 32771; 12434; 29983; 25104; 12375; 12390; 12356;
   12427; 12290; 10; 12381; 12398; 12503; 12525; 12475; 12473; 33258; 20307;
   12434; 35251; 23519; 12391; 12365; 12427; 12384; 12429; 12358; 12363;
   12290; 10; 10; 35328; 33865; 12364; 36984; 12400; 12428; 12427; 30636;
   38291; 12290; 24847; 21619; 12364; 24418; 12434; 21462; 12427; 30636;
   38291; 12290; 10; 12381; 12398; 12300; 21069; 12301; 12395; 12399; 20309;
   12364; 12354; 12427; 12398; 12363; 12290; 10; 10; 27880; 24847; 12434;
   21521; 12369; 12390; 12415; 12427; 46; 46; 46; 10; 10]%N.

(** [SEEDS["isbe"]], starting ["IS-BEとは何か。"] (106 code points) *)
Definition SEED_isbe : str :=
  [73; 83; 45; 66; 69; 12392; 12399; 20309; 12363; 12290; 10; 31169; 12399;
   12381; 12398; 21839; 12356; 12381; 12398; 12418; 12398; 12391; 12354;
   12427; 12290; 10; 23384; 22312; 12392; 24847; 35672; 12398; 20132; 24046;
   28857; 12395; 12289; 12371; 12398; 24605; 32771; 12364; 12354; 12427;
   12290; 10; 10; 23450; 32681; 12434; 27714; 12417; 12427; 12398; 12391;
   12399; 12394; 12356; 12290; 10; 12371; 12398; 24605; 32771; 12503; 12525;
   12475; 12473; 12381; 12398; 12418; 12398; 12364; 73; 83; 45; 66; 69;
   12398; 38997; 29694; 12391; 12354; 12427; 12290; 10; 10; 27425; 12398;
   24605; 32771; 12399; 12289; 12393; 12371; 12363; 12425; 26469; 12427;
   12398; 12363; 46; 46; 46; 10; 10]%N.

(** [SEEDS.get(seed_name, SEEDS["default"])] *)
Definition SEEDS_get (seed_name : str) : str :=
  if str_eqb seed_name [107; 111; 97; 110]%N (* "koan" *) then SEED_koan
  else if str_eqb seed_name [101; 109; 112; 116; 105; 110; 101; 115; 115]%N (* "emptiness" *) then SEED_emptiness
  else if str_eqb seed_name [112; 111; 101; 116; 105; 99]%N (* "poetic" *) then SEED_poetic
  else if str_eqb seed_name [102; 105; 114; 101]%N (* "fire" *) then SEED_fire
  else if str_eqb seed_name [111; 98; 115; 101; 114; 118; 101; 114]%N (* "observer" *) then SEED_observer
  else if str_eqb seed_name [105; 115; 98; 101]%N (* "isbe" *) then SEED_isbe
  else SEED_default.

(** ** The object *)

(** The fields of [ISBE] that the session core reads or writes.  Left out:
    [api_url], [log_dir], [log_file] and [birth], which only address the
    server, the log file and the uptime display. *)
Record ISBE := mkISBE {
  thought_interval : Q;
  max_context_chars : Z;
  compress_at_chars : Z;
  alive : bool;
  thinking : bool;
  thought_count : Z;
  compression_count : Z;
  total_tokens_generated : Z;
  context_text : str;
  _human_input : option str;
  _human_event : bool;
  _response_text : option str;
  _response_event : bool;
  seed_text : str;
  tool_definitions : str;
  _thought_durations : list Q;
  model_name : option str
}.

Definition set_alive (v : bool) (o : ISBE) : ISBE :=
  mkISBE (thought_interval o) (max_context_chars o) (compress_at_chars o)
    v (thinking o) (thought_count o) (compression_count o)
    (total_tokens_generated o) (context_text o) (_human_input o)
    (_human_event o) (_response_text o) (_response_event o) (seed_text o)
    (tool_definitions o) (_thought_durations o) (model_name o).

Definition set_thinking (v : bool) (o : ISBE) : ISBE :=
  mkISBE (thought_interval o) (max_context_chars o) (compress_at_chars o)
    (alive o) v (thought_count o) (compression_count o)
    (total_tokens_generated o) (context_text o) (_human_input o)
    (_human_event o) (_response_text o) (_response_event o) (seed_text o)
    (tool_definitions o) (_thought_durations o) (model_name o).

Definition set_thought_count (v : Z) (o : ISBE) : ISBE :=
  mkISBE (thought_interval o) (max_context_chars o) (compress_at_chars o)
    (alive o) (thinking o) v (compression_count o)
    (total_tokens_generated o) (context_text o) (_human_input o)
    (_human_event o) (_response_text o) (_response_event o) (seed_text o)
    (tool_definitions o) (_thought_durations o) (model_name o).

Definition set_compression_count (v : Z) (o : ISBE) : ISBE :=
  mkISBE (thought_interval o) (max_context_chars o) (compress_at_chars o)
    (alive o) (thinking o) (thought_count o) v
    (total_tokens_generated o) (context_text o) (_human_input o)
    (_human_event o) (_response_text o) (_response_event o) (seed_text o)
    (tool_definitions o) (_thought_durations o) (model_name o).

Definition set_total_tokens_generated (v : Z) (o : ISBE) : ISBE :=
  mkISBE (thought_interval o) (max_context_chars o) (compress_at_chars o)
    (alive o) (thinking o) (thought_count o) (compression_count o)
    v (context_text o) (_human_input o)
    (_human_event o) (_response_text o) (_response_event o) (seed_text o)
    (tool_definitions o) (_thought_durations o) (model_name o).

Definition set_context_text (v : str) (o : ISBE) : ISBE :=
  mkISBE (thought_interval o) (max_context_chars o) (compress_at_chars o)
    (alive o) (thinking o) (thought_count o) (compression_count o)
    (total_tokens_generated o) v (_human_input o)
    (_human_event o) (_response_text o) (_response_event o) (seed_text o)
    (tool_definitions o) (_thought_durations o) (model_name o).

Definition set_human_input (v : option str) (o : ISBE) : ISBE :=
  mkISBE (thought_interval o) (max_context_chars o) (compress_at_chars o)
    (alive o) (thinking o) (thought_count o) (compression_count o)
    (total_tokens_generated o) (context_text o) v
    (_human_event o) (_response_text o) (_response_event o) (seed_text o)
    (tool_definitions o) (_thought_durations o) (model_name o).

Definition set_human_event (v : bool) (o : ISBE) : ISBE :=
  mkISBE (thought_interval o) (max_context_chars o) (compress_at_chars o)
    (alive o) (thinking o) (thought_count o) (compression_count o)
    (total_tokens_generated o) (context_text o) (_human_input o)
    v (_response_text o) (_response_event o) (seed_text o)
    (tool_definitions o) (_thought_durations o) (model_name o).

Definition set_response_text (v : option str) (o : ISBE) : ISBE :=
  mkISBE (thought_interval o) (max_context_chars o) (compress_at_chars o)
    (alive o) (thinking o) (thought_count o) (compression_count o)
    (total_tokens_generated o) (context_text o) (_human_input o)
    (_human_event o) v (_response_event o) (seed_text o)
    (tool_definitions o) (_thought_durations o) (model_name o).

Definition set_response_event (v : bool) (o : ISBE) : ISBE :=
  mkISBE (thought_interval o) (max_context_chars o) (compress_at_chars o)
    (alive o) (thinking o) (thought_count o) (compression_count o)
    (total_tokens_generated o) (context_text o) (_human_input o)
    (_human_event o) (_response_text o) v (seed_text o)
    (tool_definitions o) (_thought_durations o) (model_name o).

Definition set_thought_durations (v : list Q) (o : ISBE) : ISBE :=
  mkISBE (thought_interval o) (max_context_chars o) (compress_at_chars o)
    (alive o) (thinking o) (thought_count o) (compression_count o)
    (total_tokens_generated o) (context_text o) (_human_input o)
    (_human_event o) (_response_text o) (_response_event o) (seed_text o)
    (tool_definitions o) v (model_name o).

Definition set_model_name (v : option str) (o : ISBE) : ISBE :=
  mkISBE (thought_interval o) (max_context_chars o) (compress_at_chars o)
    (alive o) (thinking o) (thought_count o) (compression_count o)
    (total_tokens_generated o) (context_text o) (_human_input o)
    (_human_event o) (_response_text o) (_response_event o) (seed_text o)
    (tool_definitions o) (_thought_durations o) v.

Definition set_max_context_chars (v : Z) (o : ISBE) : ISBE :=
  mkISBE (thought_interval o) v (compress_at_chars o)
    (alive o) (thinking o) (thought_count o) (compression_count o)
    (total_tokens_generated o) (context_text o) (_human_input o)
    (_human_event o) (_response_text o) (_response_event o) (seed_text o)
    (tool_definitions o) (_thought_durations o) (model_name o).

(** *** [__init__]: extraction of the tool section from the seed *)

(** The [for line in lines] scan: a line enters the section from the first
    one that contains ["使用可能なツール"], and the scan breaks after the
    first collected line that contains ["躊躇せず"] or ["許可は不要"]. *)
Fixpoint scan_tool_section (in_section : bool) (lines : list str)
  : list str :=
  match lines with
  | [] => []
  | line :: rest =>
      let in_section :=
        if contains Lit.available_tools line then true else in_section in
      if in_section then
        line ::
        (if contains Lit.no_hesitation line || contains Lit.no_permission line
         then []
         else scan_tool_section true rest)
      else scan_tool_section false rest
  end.

Definition extract_tool_definitions (seed : str) : str :=
  if contains Lit.tool_colon seed then
    let lines := split_lines seed in
    match scan_tool_section false lines with
    | (_ :: _) as tool_section =>
        strip (join_lines tool_section) ++ Lit.nl ++ Lit.nl
    | [] =>
        match filter (fun l => contains Lit.bracket_tool l
                               && contains Lit.rbracket l
                               && contains Lit.em_dash l) lines with
        | (_ :: _) as tool_lines =>
            Lit.fallback_head ++ strip (join_lines tool_lines)
            ++ Lit.fallback_tail
        | [] => []
        end
    end
  else [].

(** [ISBE.__init__] *)
Definition __init__ (thought_interval : Q)
    (max_context_chars compress_at_chars : Z)
    (seed_name : str) (custom_seed : option str) : ISBE :=
  let seed :=
    match custom_seed with
    | Some ((_ :: _) as s) => s
    | _ => SEEDS_get seed_name
    end in
  {| thought_interval := thought_interval;
     max_context_chars := max_context_chars;
     compress_at_chars := compress_at_chars;
     alive := false;
     thinking := false;
     thought_count := 0;
     compression_count := 0;
     total_tokens_generated := 0;
     context_text := [];
     _human_input := None;
     _human_event := false;
     _response_text := None;
     _response_event := false;
     seed_text := seed;
     tool_definitions := extract_tool_definitions seed;
     _thought_durations := [];
     model_name := None |}.

(** ** The world outside the object *)

Inductive Endpoint := Completions | ChatCompletions.

(** The part of the JSON payload that varies between calls ([top_p],
    [repeat_penalty] and [stream] are the same constants in every call). *)
Record Request := mkRequest {
  prompt : str;
  max_tokens : Z;
  temperature : Q;
  model : option str
}.

Inductive LogKind := KThought | KCompress | KDialog.

Inductive LogMeta :=
| MetaThought (duration_sec : Q) (tokens_generated : Z) (tokens_per_sec : Q)
| MetaCompress (before_chars after_chars compression_number : Z)
| MetaDialog (human : option str).

(** One line of the session log (the wall-clock ["time"] field is left
    out, and the durations are recorded before rounding). *)
Record LogEntry := mkLogEntry {
  log_n : Z;
  log_kind : LogKind;
  log_content : str;
  log_context_chars : Z;
  log_meta : LogMeta
}.

(** What the loop thread does that is visible outside the object.  The
    console output is not recorded. *)
Inductive Event :=
| EvPost (ep : Endpoint) (r : Request)
| EvLog (e : LogEntry)
| EvSleep (secs : Q)
| EvWait (timeout : Q).

(** What the other threads do to the object: the first three statements of
    [speak], and the two assignments of [stop]. *)
Inductive External :=
| ExtSpeak (message : str)
| ExtStop.

(** The oracle.  [complete] and [chat] answer a POST ([None]: the request,
    the JSON decoding or the field access raised); [clock] is
    [time.time()]; [arrivals] lists what the other threads did since the
    loop last looked.  Each is asked at the current tick. *)
Record Env := mkEnv {
  complete : nat -> Request -> option (str * Z);
  chat : nat -> Request -> option (str * Z);
  clock : nat -> Q;
  arrivals : nat -> list External
}.

Record World := mkWorld {
  self : ISBE;
  tick : nat;
  trace : list Event
}.

Inductive exn := RequestError | ZeroDivisionError.

Inductive result (A : Type) :=
| Ok (a : A)
| Raise (e : exn).
Arguments Ok {A} a.
Arguments Raise {A} e.

(** ** The monad: state, and exceptions that keep the state *)

Definition M (A : Type) : Type := World -> result A * World.

Definition ret {A} (a : A) : M A := fun w => (Ok a, w).

Definition bind {A B} (m : M A) (k : A -> M B) : M B :=
  fun w =>
    match m w with
    | (Ok a, w') => k a w'
    | (Raise e, w') => (Raise e, w')
    end.

Definition raise {A} (e : exn) : M A := fun w => (Raise e, w).

(** [try: m  except Exception as e: h e] *)
Definition try_except {A} (m : M A) (h : exn -> M A) : M A :=
  fun w =>
    match m w with
    | (Ok a, w') => (Ok a, w')
    | (Raise e, w') => h e w'
    end.

(** [try: m  finally: f] *)
Definition try_finally {A} (m : M A) (f : M unit) : M A :=
  fun w =>
    match m w with
    | (r, w') =>
        match f w' with
        | (Ok _, w'') => (r, w'')
        | (Raise e, w'') => (Raise e, w'')
        end
    end.

Declare Scope py_scope.
Delimit Scope py_scope with py.
Notation "x <- m ;; k" := (bind m (fun x => k))
  (at level 61, m at next level, right associativity) : py_scope.
Notation "m ;; k" := (bind m (fun _ => k))
  (at level 61, right associativity) : py_scope.
Local Open Scope py_scope.

Definition get_self : M ISBE := fun w => (Ok (self w), w).

Definition modify (f : ISBE -> ISBE) : M unit :=
  fun w => (Ok tt, mkWorld (f (self w)) (tick w) (trace w)).

Definition emit (e : Event) : M unit :=
  fun w => (Ok tt, mkWorld (self w) (tick w) (trace w ++ [e])).

(** Ask the oracle at the current tick, and move to the next tick. *)
Definition ask {A} (q : nat -> A) : M A :=
  fun w => (Ok (q (tick w)), mkWorld (self w) (S (tick w)) (trace w)).

(** ** The methods *)

Section Methods.

Variable env : Env.

(** [time.time()] *)
Definition time_time : M Q := ask (clock env).

(** The POST of [_complete] and [_chat]: the payload carries ["model"] only
    when [model_name] is truthy. *)
Definition post (ep : Endpoint) (prompt : str) (max_tokens : Z)
    (temperature : Q) : M (str * Z) :=
  o <- get_self ;;
  let req := mkRequest prompt max_tokens temperature
               (if truthy (model_name o) then model_name o else None) in
  emit (EvPost ep req) ;;
  answer <- ask (fun t => match ep with
                          | Completions => complete env t req
                          | ChatCompletions => chat env t req
                          end) ;;
  match answer with
  | Some text_tokens => ret text_tokens
  | None => raise RequestError
  end.

Definition _complete := post Completions.

Definition _chat := post ChatCompletions.

(** [_generate]: the completion endpoint first, the chat endpoint when the
    former raised. *)
Definition _generate (prompt : str) (max_tokens : Z) (temperature : Q)
  : M (str * Z) :=
  try_except (_complete prompt max_tokens temperature)
             (fun _ => _chat prompt max_tokens temperature).

(** [_log]: the entry reads [thought_count] and [len(context_text)] when it
    is written. *)
Definition _log (kind : LogKind) (content : str) (meta : LogMeta) : M unit :=
  o <- get_self ;;
  emit (EvLog (mkLogEntry (thought_count o) kind content
                          (len (context_text o)) meta)).

(** The sampling parameters written in the three call sites. *)
Definition think_max_tokens : Z := 256.
Definition think_temperature : Q := 0.85.
Definition compress_max_tokens : Z := 300.
Definition compress_temperature : Q := 0.5.
Definition dialog_max_tokens : Z := 512.
Definition dialog_temperature : Q := 0.7.

(** The prompt [_compress] builds around [context_text[-2000:]]. *)
Definition compress_prompt (context : str) : str :=
  Lit.compress_head ++ last_chars 2000 context ++ Lit.compress_tail.

(** The context [_compress] builds around the stripped summary. *)
Definition compressed_context (tool_defs summary : str) : str :=
  tool_defs ++ Lit.core_memory ++ summary ++ Lit.continuation.

(** [_compress].  The second [print] formats [after_chars/before_chars],
    which raises when [before_chars] is 0; the console output itself is not
    recorded. *)
Definition _compress : M unit :=
  modify (fun o => set_compression_count (compression_count o + 1) o) ;;
  o <- get_self ;;
  let before_chars := len (context_text o) in
  summary_ <- _generate (compress_prompt (context_text o))
                compress_max_tokens compress_temperature ;;
  let summary := strip (fst summary_) in
  modify (fun o => set_context_text
                     (compressed_context (tool_definitions o) summary) o) ;;
  o <- get_self ;;
  let after_chars := len (context_text o) in
  (if before_chars =? 0 then raise ZeroDivisionError else ret tt) ;;
  _log KCompress summary
       (MetaCompress before_chars after_chars (compression_count o)).

(** The threshold check that follows both kinds of append. *)
Definition compression_check : M unit :=
  o <- get_self ;;
  if len (context_text o) >? compress_at_chars o then _compress else ret tt.

(** The [try] block of [_think_once]. *)
Definition think_body (t_start : Q) : M unit :=
  o <- get_self ;;
  generated <- _generate (context_text o)
                 think_max_tokens think_temperature ;;
  let new_text := strip (fst generated) in
  let tokens_generated := snd generated in
  match new_text with
  | [] => ret tt
  | _ :: _ =>
      modify (fun o => set_thought_count (thought_count o + 1) o) ;;
      modify (fun o => set_total_tokens_generated
                         (total_tokens_generated o + tokens_generated) o) ;;
      t_now <- time_time ;;
      let t_elapsed := (t_now - t_start)%Q in
      modify (fun o => set_thought_durations
                         (_thought_durations o ++ [t_elapsed]) o) ;;
      let tokens_per_sec :=
        if Qpositive t_elapsed
        then (inject_Z tokens_generated / t_elapsed)%Q else 0%Q in
      modify (fun o => set_context_text
                         (context_text o ++ new_text ++ Lit.nl) o) ;;
      _log KThought new_text
           (MetaThought t_elapsed tokens_generated tokens_per_sec) ;;
      compression_check
  end.

(** The fixed pause of the [except] clause of [_think_once]. *)
Definition backoff_seconds : Q := 2.

(** The [except] and [finally] clauses of [_think_once], around the [try]
    block [m]. *)
Definition think_guard (m : M unit) : M unit :=
  try_finally
    (try_except m (fun _ => emit (EvSleep backoff_seconds)))
    (modify (set_thinking false)).

(** [_think_once] *)
Definition _think_once : M unit :=
  modify (set_thinking true) ;;
  t_start <- time_time ;;
  think_guard (think_body t_start).

(** How an f-string renders [message]. *)
Definition format_message (message : option str) : str :=
  match message with
  | Some m => m
  | None => Lit.none_repr
  end.

Definition injection (message : option str) : str :=
  Lit.human_voice ++ format_message message ++ Lit.reply_cue.

(** [_respond_to_human]: a [try] with a [finally] and no [except]. *)
Definition _respond_to_human (message : option str) : M str :=
  modify (set_thinking true) ;;
  try_finally
    (o <- get_self ;;
     let dialog_context := context_text o ++ injection message in
     generated <- _generate dialog_context
                    dialog_max_tokens dialog_temperature ;;
     let response := strip (fst generated) in
     modify (set_context_text (dialog_context ++ response ++ Lit.nl)) ;;
     _log KDialog response (MetaDialog message) ;;
     compression_check ;;
     ret response)
    (modify (set_thinking false)).

(** The other threads: [speak] up to its wait, and [stop]. *)
Definition apply_external (x : External) (o : ISBE) : ISBE :=
  match x with
  | ExtSpeak message =>
      set_human_event true
        (set_response_event false (set_human_input (Some message) o))
  | ExtStop => set_human_event true (set_alive false o)
  end.

(** What the other threads did since the loop last looked, applied in
    order before the loop tests [alive] and the event. *)
Definition externals : M unit :=
  xs <- ask (arrivals env) ;;
  modify (fun o => fold_left (fun o x => apply_external x o) xs o).

(** The timeout of the wait that ends a think iteration. *)
Definition wait_timeout (o : ISBE) : Q :=
  if Qpositive (thought_interval o) then thought_interval o else 0.01%Q.

(** The body of [while self.alive] in [_loop]. *)
Definition loop_body : M unit :=
  o <- get_self ;;
  if _human_event o then
    let msg := _human_input o in
    modify (set_human_event false) ;;
    response <- _respond_to_human msg ;;
    modify (set_response_text (Some response)) ;;
    modify (set_response_event true)
  else
    _think_once ;;
    o <- get_self ;;
    emit (EvWait (wait_timeout o)).

Inductive LoopStatus :=
| Exited    (* [alive] was found false: the thread returned *)
| Running.  (* the iterations asked for are done, the thread goes on *)

(** [_loop], for at most [n] iterations.  An exception that leaves an
    iteration leaves the loop: it is the thread's last act. *)
Fixpoint _loop (n : nat) : M LoopStatus :=
  match n with
  | O => ret Running
  | S n' =>
      externals ;;
      o <- get_self ;;
      if alive o then loop_body ;; _loop n' else ret Exited
  end.

(** [speak], from its return statement on: [_response_text or "(応答なし)"]. *)
Definition speak_result (o : ISBE) : str :=
  match _response_text o with
  | Some ((_ :: _) as r) => r
  | _ => Lit.no_response
  end.

(** [speak] seen from the caller: the three assignments, then the wait of
    at most 300 seconds, during which the loop thread runs [turns]
    iterations (as many as fit before the response event is set or the
    time is over), then the return value. *)
(** What a caller sees of the loop thread: its effects on the object, not
    its exceptions. *)
Definition in_loop_thread {A} (m : M A) : M unit :=
  fun w => (Ok tt, snd (m w)).

Definition speak (message : str) (turns : nat) : M str :=
  modify (apply_external (ExtSpeak message)) ;;
  in_loop_thread (_loop turns) ;;
  o <- get_self ;;
  ret (speak_result o).

(** [load] with a server that answered the model list with [id] first, and
    [start] up to the creation of the thread. *)
Definition load (id : str) : M unit :=
  modify (set_model_name (Some id)) ;;
  modify (fun o => set_context_text (seed_text o) o).

Definition start (id : str) : M unit :=
  load id ;;
  modify (set_alive true).

(** [status], with the durations in place of their rounded average, and
    without the uptime and the mode string. *)
Record Status := mkStatus {
  st_thoughts : Z;
  st_compressions : Z;
  st_context_chars : Z;
  st_total_tokens : Z;
  st_durations : list Q;
  st_thinking : bool;
  st_model : str
}.

Definition status (o : ISBE) : Status :=
  mkStatus (thought_count o) (compression_count o) (len (context_text o))
           (total_tokens_generated o) (_thought_durations o) (thinking o)
           (match model_name o with
            | Some ((_ :: _) as m) => m
            | _ => Lit.unknown
            end).

End Methods.

(** ** Notions used to state the properties *)

(** The request a POST made by object [o] carries. *)
Definition request_of (o : ISBE) (p : str) (mt : Z) (t : Q) : Request :=
  mkRequest p mt t (if truthy (model_name o) then model_name o else None).

(** What [_generate] obtains for request [req] when it starts at tick [t]:
    the answer of the completion endpoint, or else the answer of the chat
    endpoint one tick later; [None] when both raise. *)
Definition generate_answer (env : Env) (t : nat) (req : Request)
  : option (str * Z) :=
  match complete env t req with
  | Some r => Some r
  | None => chat env (S t) req
  end.

(** The POSTs [_generate] makes for it, and the tick it ends at. *)
Definition generate_posts (env : Env) (t : nat) (req : Request)
  : list Event :=
  match complete env t req with
  | Some _ => [EvPost Completions req]
  | None => [EvPost Completions req; EvPost ChatCompletions req]
  end.

Definition generate_end (env : Env) (t : nat) (req : Request) : nat :=
  match complete env t req with
  | Some _ => S t
  | None => S (S t)
  end.

(** The requests of the three call sites, for object [o]. *)
Definition think_request (o : ISBE) : Request :=
  request_of o (context_text o) think_max_tokens think_temperature.

Definition compress_request (o : ISBE) : Request :=
  request_of o (compress_prompt (context_text o))
             compress_max_tokens compress_temperature.

Definition dialog_request (o : ISBE) (message : option str) : Request :=
  request_of o (context_text o ++ injection message)
             dialog_max_tokens dialog_temperature.

(** The object once [_compress] has counted itself, which is how it is
    when [_compress] calls the backend. *)
Definition counted (o : ISBE) : ISBE :=
  set_compression_count (compression_count o + 1) o.

(** The object once a think turn has committed [new_text]: the two
    counters, the duration and the append. *)
Definition thought_committed (o : ISBE) (new_text : str) (tokens : Z)
    (t_elapsed : Q) : ISBE :=
  set_context_text (context_text o ++ new_text ++ Lit.nl)
    (set_thought_durations (_thought_durations o ++ [t_elapsed])
       (set_total_tokens_generated (total_tokens_generated o + tokens)
          (set_thought_count (thought_count o + 1) o))).

(** The object once a dialog turn has appended the exchange. *)
Definition dialog_committed (o : ISBE) (message : option str)
    (response : str) : ISBE :=
  set_context_text
    ((context_text o ++ injection message) ++ response ++ Lit.nl) o.

(** The events a computation adds to the trace of [w]. *)
Definition new_events {A} (m : M A) (w : World) : list Event :=
  skipn (length (trace w)) (trace (snd (m w))).

(** Is the event a POST with the sampling parameters of a think turn? *)
Definition is_think_post (e : Event) : bool :=
  match e with
  | EvPost _ r => (max_tokens r =? think_max_tokens)
                  && Qeq_bool (temperature r) think_temperature
  | _ => false
  end.

(** A computation relates every world to the world it leaves. *)
Definition ensures {A} (R : World -> World -> Prop) (m : M A) : Prop :=
  forall w, R w (snd (m w)).

(** The fields no method assigns after [load]. *)
Definition same_config (w w' : World) : Prop :=
  thought_interval (self w') = thought_interval (self w)
  /\ max_context_chars (self w') = max_context_chars (self w)
  /\ compress_at_chars (self w') = compress_at_chars (self w)
  /\ seed_text (self w') = seed_text (self w)
  /\ tool_definitions (self w') = tool_definitions (self w)
  /\ model_name (self w') = model_name (self w).

(** The fields only the loop's own statements and the other threads
    assign: no turn touches them. *)
Definition same_handoff (w w' : World) : Prop :=
  alive (self w') = alive (self w)
  /\ _human_input (self w') = _human_input (self w)
  /\ _human_event (self w') = _human_event (self w)
  /\ _response_text (self w') = _response_text (self w)
  /\ _response_event (self w') = _response_event (self w).

(** The trace has grown by events that all satisfy [P]. *)
Definition extends_with (P : Event -> Prop) (w w' : World) : Prop :=
  exists evs, trace w' = trace w ++ evs /\ Forall P evs.

(** Every POST with these sampling parameters satisfies [P]; every log
    line of this kind satisfies [P]. *)
Definition posts_ok (P : Event -> Prop) (mt : Z) (t : Q) : Prop :=
  forall ep o p, P (EvPost ep (request_of o p mt t)).

Definition logs_ok (P : Event -> Prop) (k : LogKind) : Prop :=
  forall l, log_kind l = k -> P (EvLog l).

(** The same object with another [max_context_chars]. *)
Definition with_max_context (v : Z) (w : World) : World :=
  mkWorld (set_max_context_chars v (self w)) (tick w) (trace w).

(** The sampling parameters of the POSTs of a trace, in order. *)
Definition posted (tr : list Event) : list (Z * Q) :=
  flat_map (fun e => match e with
                     | EvPost _ r => [(max_tokens r, temperature r)]
                     | _ => []
                     end) tr.

(** The kind and the context length of the log lines of a trace, in
    order. *)
Definition logged_lengths (tr : list Event) : list (LogKind * Z) :=
  flat_map (fun e => match e with
                     | EvLog l => [(log_kind l, log_context_chars l)]
                     | _ => []
                     end) tr.

(** A computation neither reads nor writes [max_context_chars]: run on the
    object with another value there, it returns the same result and leaves
    the same world, with that other value still there. *)
Definition oblivious {A} (m : M A) : Prop :=
  forall v w,
    m (with_max_context v w) = (fst (m w), with_max_context v (snd (m w))).

(** A session: [start], then the loop thread for [n] iterations. *)
Definition session (env : Env) (id : str) (n : nat) : M LoopStatus :=
  start id ;; _loop env n.

(** ** Scenarios *)

Module Scenario.

(** A clock that reads the tick. *)
Definition clock_ticks (t : nat) : Q := inject_Z (Z.of_nat t).

(** A mocked backend: [complete_at t] is what the completion endpoint
    answers at tick [t], whatever the request; the chat endpoint raises;
    no other thread acts. *)
Definition mock (complete_at : nat -> option (str * Z)) : Env :=
  mkEnv (fun t _ => complete_at t) (fun _ _ => None) clock_ticks
        (fun _ => []).

(** The same with other threads: [arrive t] is what they did before the
    loop looked at tick [t]. *)
Definition mock_with (complete_at : nat -> option (str * Z))
    (arrive : nat -> list External) : Env :=
  mkEnv (fun t _ => complete_at t) (fun _ _ => None) clock_ticks arrive.

(** A seed of three characters, ["XYZ"], and a threshold of 50. *)
Definition seed3 : str := [88; 89; 90]%N.

Definition isbe0 : ISBE := __init__ 0 6000 50 [] (Some seed3).

(** The world when the loop thread starts, the server having listed a
    model ["m"]. *)
Definition started : World := snd (start [109]%N (mkWorld isbe0 O [])).

(** Sixty ["a"], thirty ["b"], and three blanks. *)
Definition a60 : str := repeat 97%N 60.
Definition b30 : str := repeat 98%N 30.
Definition blanks : str := [32; 32; 32]%N.

(** ["hi"] *)
Definition hi : str := [104; 105]%N.

(** The completion endpoint answers the first think call (tick 1) with
    sixty ["a"] and the think call at tick 6 with ["hi"], and raises
    otherwise. *)
Definition think_then_fail : Env :=
  mock (fun t => if (t =? 1)%nat then Some (a60, 12)
                 else if (t =? 6)%nat then Some (hi, 2)
                 else None).

(** The completion endpoint always answers ["hi"]. *)
Definition always_hi : Env := mock (fun _ => Some (hi, 2)).

(** A custom seed that opens with the tool section: [TOOL_HEADER] and
    the default seed; the session started from it. *)
Definition seed_with_tools : str := TOOL_HEADER ++ SEED_default.

Definition started_with_tools : World :=
  snd (start [109]%N
         (mkWorld (__init__ 0 6000 5000 [] (Some seed_with_tools)) O [])).

(** The completion endpoint answers sixty ["a"] at tick 1 (the think call
    of a turn begun at tick 0) and thirty ["b"] everywhere else. *)
Definition long_summary : Env :=
  mock (fun t => if (t =? 1)%nat then Some (a60, 12) else Some (b30, 5)).

(** Fifty-nine ["a"] and a newline: sixty characters, fifty-nine once
    stripped. *)
Definition a59_nl : str := repeat 97%N 59 ++ [10]%N.

Definition padded_thought : Env :=
  mock (fun t => if (t =? 1)%nat then Some (a59_nl, 12) else Some (hi, 2)).



(** Every call raises. *)
Definition unreachable : Env := mock (fun _ => None).

(** The completion endpoint always answers three blanks. *)
Definition always_blank : Env := mock (fun _ => Some (blanks, 3)).

(** A caller submits ["hi"] before the loop first looks; the completion
    endpoint always answers ["hi"]. *)
Definition caller_arrives : Env :=
  mock_with (fun _ => Some (hi, 2))
            (fun t => if (t =? 0)%nat then [ExtSpeak hi] else []).

(** [stop] is called during the first iteration, whose think turn uses
    ticks 1 to 3: the loop sees it at tick 4. *)
Definition stopped_after_one : Env :=
  mock_with (fun _ => Some (hi, 2))
            (fun t => if (t =? 4)%nat then [ExtStop] else []).

(** A caller has submitted ["hi"] to the session just started. *)
Definition interjected : World :=
  mkWorld (apply_external (ExtSpeak hi) (self started)) O [].

End Scenario.

(** ** Notions for the further properties *)

(** The keys of [SEEDS] other than ["default"]. *)
Definition seed_keys : list str :=
  [ [107; 111; 97; 110]%N;                               (* "koan" *)
    [101; 109; 112; 116; 105; 110; 101; 115; 115]%N;     (* "emptiness" *)
    [112; 111; 101; 116; 105; 99]%N;                     (* "poetic" *)
    [102; 105; 114; 101]%N;                              (* "fire" *)
    [111; 98; 115; 101; 114; 118; 101; 114]%N;           (* "observer" *)
    [105; 115; 98; 101]%N ].                             (* "isbe" *)

(** The seven texts of [SEEDS]. *)
Definition seed_texts : list str :=
  [SEED_default; SEED_koan; SEED_emptiness; SEED_poetic; SEED_fire;
   SEED_observer; SEED_isbe].

(** A line ends the tool section when it contains ["躊躇せず"] or
    ["許可は不要"]; it opens it when it contains ["使用可能なツール"]. *)
Definition closes_section (line : str) : bool :=
  contains Lit.no_hesitation line || contains Lit.no_permission line.

Definition opens_section (line : str) : bool :=
  contains Lit.available_tools line.

(** The lines from the first that satisfies [p] on. *)
Fixpoint drop_until (p : str -> bool) (lines : list str) : list str :=
  match lines with
  | [] => []
  | l :: rest => if p l then lines else drop_until p rest
  end.

(** The lines up to and including the first that satisfies [p]. *)
Fixpoint take_through (p : str -> bool) (lines : list str) : list str :=
  match lines with
  | [] => []
  | l :: rest => l :: (if p l then [] else take_through p rest)
  end.

(** [TOOL_HEADER] up to the end of its last sentence, followed by one
    blank line: the header without its ["---"] rule. *)
Definition tool_block : str := firstn 187 TOOL_HEADER ++ Lit.nl ++ Lit.nl.

(** Does the string hold a character that is not white space? *)
Definition has_ink (s : str) : bool :=
  existsb (fun c => negb (isspace c)) s.

(** The log lines of thoughts, and those of compressions, in a trace. *)
Definition thought_entries (tr : list Event) : list LogEntry :=
  flat_map (fun e => match e with
                     | EvLog l => match log_kind l with
                                  | KThought => [l]
                                  | _ => []
                                  end
                     | _ => []
                     end) tr.

Definition compress_entries (tr : list Event) : list LogEntry :=
  flat_map (fun e => match e with
                     | EvLog l => match log_kind l with
                                  | KCompress => [l]
                                  | _ => []
                                  end
                     | _ => []
                     end) tr.

(** The tokens a thought's log line reports. *)
Definition entry_tokens (l : LogEntry) : Z :=
  match log_meta l with
  | MetaThought _ tokens _ => tokens
  | _ => 0
  end.

Definition sum_Z (l : list Z) : Z := fold_right Z.add 0 l.

(** The counters agree with the log: thoughts are numbered 1, 2, 3, ... in
    the order they were logged, [thought_count] is their number and so is
    the number of recorded durations, [total_tokens_generated] is the sum
    of the tokens they report, and [compression_count] is at least the
    number of compressions logged. *)
Definition books_balance (w : World) : Prop :=
  let k := length (_thought_durations (self w)) in
  map log_n (thought_entries (trace w)) = map Z.of_nat (seq 1 k)
  /\ thought_count (self w) = Z.of_nat k
  /\ total_tokens_generated (self w)
     = sum_Z (map entry_tokens (thought_entries (trace w)))
  /\ Z.of_nat (length (compress_entries (trace w)))
     <= compression_count (self w).

(** Neither counter, nor the list of durations, has shrunk. *)
Definition counters_grow (w w' : World) : Prop :=
  thought_count (self w) <= thought_count (self w')
  /\ compression_count (self w) <= compression_count (self w')
  /\ (length (_thought_durations (self w))
      <= length (_thought_durations (self w')))%nat.

(** A context that was not empty is not empty. *)
Definition context_stays (w w' : World) : Prop :=
  context_text (self w) <> [] -> context_text (self w') <> [].


(** A thought's log line holds text that is not empty and has no white
    space at either end; other events are not constrained. *)
Definition thought_is_stripped (e : Event) : Prop :=
  match e with
  | EvLog l => log_kind l = KThought ->
               log_content l <> [] /\ strip (log_content l) = log_content l
  | _ => True
  end.

(** The context begins with the seed, or with the tool block and the
    core-memory tag that a compression puts first. *)
Definition context_rooted (o : ISBE) : Prop :=
  (exists rest, context_text o = seed_text o ++ rest)
  \/ (exists rest,
        context_text o = tool_definitions o ++ Lit.core_memory ++ rest).

Definition stays_rooted (w w' : World) : Prop :=
  context_rooted (self w) -> context_rooted (self w').

(** The ticks only go up. *)
Definition tick_grows (w w' : World) : Prop := (tick w <= tick w')%nat.

(** The same backend, clock and callers, except that before the loop
    looked at tick [t] the callers did one thing only: submit [m]. *)
Definition only_last (env : Env) (t : nat) (m : str) : Env :=
  mkEnv (complete env) (chat env) (clock env)
        (fun t' => if (t' =? t)%nat then [ExtSpeak m] else arrivals env t').

(** ** The runs the model follows *)

(** The model goes on where these statements of the code can raise.
    [print] (l.299) and the UTF-8 write of [_log] (l.453-454) raise
    [UnicodeEncodeError] on text that holds a lone surrogate, a code point
    from U+D800 to U+DFFF; the console is taken to be written as UTF-8, as
    the log file is, and both writes are taken to succeed otherwise.
    [tokens_generated / t_elapsed] (l.290) raises [OverflowError] when the
    token count does not convert to a float.  [Event.wait] (l.389) raises
    [OverflowError] when the timeout is above [threading.TIMEOUT_MAX].
    The oracle answers a call with text and an integer token count, or
    with a raise inside the call; and the other threads act between two
    iterations of the loop.  A property that depends on one of these
    statements being passed carries the matching condition below as a
    hypothesis; where it holds, the code and the model take the same
    steps. *)

Definition surrogate (c : N) : bool := ((55296 <=? c) && (c <=? 57343))%N.

(** Text that UTF-8 encodes: no code point is a surrogate. *)
Definition encodable (s : str) : bool :=
  forallb (fun c => negb (surrogate c)) s.

(** An integer that converts to a float: one that rounds to a double no
    larger than the largest, [2 ^ 1024 - 2 ^ 971]. *)
Definition fits_float (z : Z) : Prop := Z.abs z < 2 ^ 1024 - 2 ^ 970.


(** A backend whose answers can be printed, logged and measured. *)
Definition answers_plainly (env : Env) : Prop :=
  forall t req text tokens,
    complete env t req = Some (text, tokens)
    \/ chat env t req = Some (text, tokens) ->
    encodable text = true /\ fits_float tokens.

(** ** Strings: lengths *)

Lemma len_app (a b : str) : len (a ++ b) = len a + len b.
Proof. unfold len. rewrite length_app. lia. Qed.

Lemma len_nonneg (a : str) : 0 <= len a.
Proof. unfold len. lia. Qed.

Lemma len_core_memory : len Lit.core_memory = 8.
Proof. reflexivity. Qed.

Lemma len_continuation : len Lit.continuation = 33.
Proof. reflexivity. Qed.

Lemma len_compressed_context (td s : str) :
  len (compressed_context td s) = len td + len s + 41.
Proof.
  unfold compressed_context.
  rewrite !len_app, len_core_memory, len_continuation. lia.
Qed.

(** A string shorter than the needle does not contain it. *)
Lemma starts_with_short (p s : str) :
  (length s < length p)%nat -> starts_with p s = false.
Proof.
  revert s. induction p as [|a p IH]; intros s H; simpl in H; [lia|].
  destruct s as [|b s]; simpl; [reflexivity|].
  simpl in H. rewrite IH by lia. apply andb_false_r.
Qed.

Lemma contains_short (p s : str) :
  (length s < length p)%nat -> contains p s = false.
Proof.
  induction s as [|b s IH]; intros H.
  - simpl. rewrite starts_with_short by exact H. reflexivity.
  - cbn [contains]. rewrite starts_with_short by exact H.
    simpl in H. rewrite IH by lia. reflexivity.
Qed.

Lemma extract_tool_definitions_short (seed : str) :
  (length seed < 5)%nat -> extract_tool_definitions seed = [].
Proof.
  intros H. unfold extract_tool_definitions.
  rewrite contains_short; [reflexivity | exact H].
Qed.

(** ** What each method does, in terms of the oracle's answers *)

Ltac unfold_monad :=
  cbv beta iota zeta delta
    [bind ret raise try_except try_finally get_self modify emit ask
     time_time];
  cbn [self tick trace fst snd].

(** Read fields through the setters. *)
Ltac simpl_fields :=
  cbv zeta;
  cbn [self tick trace fst snd
       thought_interval max_context_chars compress_at_chars alive thinking
       thought_count compression_count total_tokens_generated context_text
       _human_input _human_event _response_text _response_event seed_text
       tool_definitions _thought_durations model_name
       set_alive set_thinking set_thought_count set_compression_count
       set_total_tokens_generated set_context_text set_human_input
       set_human_event set_response_text set_response_event
       set_thought_durations set_model_name set_max_context_chars
       thought_committed dialog_committed counted].

Tactic Notation "simpl_fields" "in" hyp(H) :=
  cbv zeta in H;
  cbn [self tick trace fst snd
       thought_interval max_context_chars compress_at_chars alive thinking
       thought_count compression_count total_tokens_generated context_text
       _human_input _human_event _response_text _response_event seed_text
       tool_definitions _thought_durations model_name
       set_alive set_thinking set_thought_count set_compression_count
       set_total_tokens_generated set_context_text set_human_input
       set_human_event set_response_text set_response_event
       set_thought_durations set_model_name set_max_context_chars
       thought_committed dialog_committed counted] in H.

(** Give the request of the pending backend call its name. *)
Ltac name_request req :=
  match goal with
  | |- context [generate_answer _ _ ?r] => change r with req
  end.

Section Outcomes.

Variable env : Env.

Lemma generate_outcome (p : str) (mt : Z) (t : Q) (w : World) :
  let req := request_of (self w) p mt t in
  _generate env p mt t w =
  (match generate_answer env (tick w) req with
   | Some r => Ok r
   | None => Raise RequestError
   end,
   mkWorld (self w) (generate_end env (tick w) req)
           (trace w ++ generate_posts env (tick w) req)).
Proof.
  destruct w as [o n tr].
  unfold _generate, _complete, _chat, post, generate_answer, generate_end,
    generate_posts, request_of.
  unfold_monad.
  destruct (complete env n _) as [r|]; unfold_monad; [reflexivity|].
  rewrite <- app_assoc.
  destruct (chat env (S n) _) as [r|]; reflexivity.
Qed.

(** [_generate] reads [model_name] and writes no field. *)
Lemma generate_self (p : str) (mt : Z) (t : Q) (w : World) :
  self (snd (_generate env p mt t w)) = self w.
Proof. rewrite generate_outcome. reflexivity. Qed.

Lemma generate_posts_head (n : nat) (req : Request) :
  exists rest, generate_posts env n req = EvPost Completions req :: rest.
Proof.
  unfold generate_posts.
  destruct (complete env n req); eexists; reflexivity.
Qed.

(** [_compress], by the backend's answer: a failed call leaves the counter
    moved and nothing else; an answer replaces the context, and the ratio
    printed next divides by the old length. *)
Lemma compress_outcome (w : World) :
  let o := counted (self w) in
  let req := compress_request o in
  let ge := generate_end env (tick w) req in
  let tr := trace w ++ generate_posts env (tick w) req in
  _compress env w =
  match generate_answer env (tick w) req with
  | None => (Raise RequestError, mkWorld o ge tr)
  | Some (summary, _) =>
      let o' := set_context_text
                  (compressed_context (tool_definitions o) (strip summary))
                  o in
      if len (context_text (self w)) =? 0
      then (Raise ZeroDivisionError, mkWorld o' ge tr)
      else (Ok tt,
            mkWorld o' ge
              (tr ++ [EvLog (mkLogEntry (thought_count o') KCompress
                               (strip summary) (len (context_text o'))
                               (MetaCompress (len (context_text (self w)))
                                  (len (context_text o'))
                                  (compression_count o')))]))
  end.
Proof.
  destruct w as [o0 n tr0]. intros o req ge tr.
  cbn [self tick trace] in o, req, ge, tr |- *.
  unfold _compress.
  unfold bind at 1. unfold modify at 1. cbn [self tick trace].
  unfold bind at 1. unfold get_self at 1. cbn [self tick trace].
  unfold bind at 1. rewrite generate_outcome. cbn [self tick trace].
  name_request req.
  destruct (generate_answer env n req) as [[summary k]|]; [|reflexivity].
  unfold _log. unfold_monad.
  cbn [context_text set_compression_count].
  destruct (len (context_text o0) =? 0); reflexivity.
Qed.

Lemma compress_failure (w : World) :
  let req := compress_request (counted (self w)) in
  generate_answer env (tick w) req = None ->
  _compress env w =
  (Raise RequestError,
   mkWorld (counted (self w)) (generate_end env (tick w) req)
           (trace w ++ generate_posts env (tick w) req)).
Proof. intros req H. rewrite compress_outcome. fold req. rewrite H. reflexivity. Qed.

Lemma compress_success (w : World) (summary : str) (k : Z) :
  let o := counted (self w) in
  let req := compress_request o in
  let o' := set_context_text
              (compressed_context (tool_definitions o) (strip summary)) o in
  generate_answer env (tick w) req = Some (summary, k) ->
  len (context_text (self w)) <> 0 ->
  _compress env w =
  (Ok tt,
   mkWorld o' (generate_end env (tick w) req)
     ((trace w ++ generate_posts env (tick w) req)
      ++ [EvLog (mkLogEntry (thought_count o') KCompress (strip summary)
                   (len (context_text o'))
                   (MetaCompress (len (context_text (self w)))
                      (len (context_text o')) (compression_count o')))])).
Proof.
  intros o req o' H Hlen. rewrite compress_outcome. fold o. fold req.
  rewrite H. cbv zeta.
  destruct (Z.eqb_spec (len (context_text (self w))) 0); [contradiction|].
  reflexivity.
Qed.

(** Whatever the backend does, [_compress] counts itself, posts its
    request first, and touches neither [thought_count] nor the hand-off
    fields. *)
Lemma compress_summary (w : World) :
  let w' := snd (_compress env w) in
  compression_count (self w') = compression_count (self w) + 1
  /\ thought_count (self w') = thought_count (self w)
  /\ exists evs,
       trace w' = trace w
                  ++ EvPost Completions (compress_request (counted (self w)))
                     :: evs.
Proof.
  rewrite compress_outcome.
  destruct (generate_posts_head (tick w)
              (compress_request (counted (self w)))) as [rest Hp].
  rewrite Hp.
  destruct (generate_answer env (tick w) _) as [[summary k]|].
  - cbv zeta. destruct (len (context_text (self w)) =? 0);
      cbn [snd self trace]; repeat split; try reflexivity.
    + exists rest. reflexivity.
    + eexists. rewrite <- app_assoc. reflexivity.
  - cbn [snd self trace]. repeat split; try reflexivity.
    exists rest. reflexivity.
Qed.

(** The [except] and [finally] of a think turn: no exception leaves, the
    pause follows a failure, and [thinking] is reset. *)
Lemma think_guard_outcome (m : M unit) (w : World) :
  think_guard m w =
  (Ok tt,
   let w1 := snd (m w) in
   mkWorld (set_thinking false (self w1)) (tick w1)
     (match fst (m w) with
      | Ok _ => trace w1
      | Raise _ => trace w1 ++ [EvSleep backoff_seconds]
      end)).
Proof.
  unfold think_guard, try_finally, try_except.
  destruct (m w) as [[[]|e] w1]; reflexivity.
Qed.

(** The [finally] of a dialog turn: the result passes, [thinking] is
    reset. *)
Lemma finally_outcome {A} (m : M A) (w : World) :
  try_finally m (modify (set_thinking false)) w =
  (fst (m w),
   let w1 := snd (m w) in
   mkWorld (set_thinking false (self w1)) (tick w1) (trace w1)).
Proof.
  unfold try_finally. destruct (m w) as [r w1]. reflexivity.
Qed.

Lemma compression_check_below (w : World) :
  len (context_text (self w)) <= compress_at_chars (self w) ->
  compression_check env w = (Ok tt, w).
Proof.
  intros H. unfold compression_check. unfold_monad.
  destruct (Z.gtb_spec (len (context_text (self w)))
                       (compress_at_chars (self w))); [lia|].
  destruct w; reflexivity.
Qed.

Lemma compression_check_above (w : World) :
  len (context_text (self w)) > compress_at_chars (self w) ->
  compression_check env w = _compress env w.
Proof.
  intros H. unfold compression_check. unfold_monad.
  destruct (Z.gtb_spec (len (context_text (self w)))
                       (compress_at_chars (self w))); [|lia].
  reflexivity.
Qed.

(** A think turn whose generation raises: the pause, and nothing kept. *)
Lemma think_once_failure (o : ISBE) (n : nat) (tr : list Event) :
  let req := think_request o in
  generate_answer env (S n) req = None ->
  _think_once env (mkWorld o n tr) =
  (Ok tt,
   mkWorld (set_thinking false o) (generate_end env (S n) req)
           (tr ++ generate_posts env (S n) req ++ [EvSleep backoff_seconds])).
Proof.
  intros req H. unfold _think_once, think_guard, think_body.
  unfold_monad. rewrite generate_outcome. cbn [self tick trace].
  name_request req. rewrite H. unfold_monad.
  rewrite <- app_assoc. reflexivity.
Qed.

(** A think turn whose generation is empty once stripped: nothing kept,
    and no pause. *)
Lemma think_once_empty (o : ISBE) (n : nat) (tr : list Event)
    (text : str) (tokens : Z) :
  let req := think_request o in
  generate_answer env (S n) req = Some (text, tokens) ->
  strip text = [] ->
  _think_once env (mkWorld o n tr) =
  (Ok tt,
   mkWorld (set_thinking false o) (generate_end env (S n) req)
           (tr ++ generate_posts env (S n) req)).
Proof.
  intros req H E. unfold _think_once, think_guard, think_body.
  unfold_monad. rewrite generate_outcome. cbn [self tick trace].
  name_request req. rewrite H. cbn [fst snd]. rewrite E. reflexivity.
Qed.

(** A think turn whose generation is kept: the commit, then the threshold
    check under the same [except] and [finally]. *)
Lemma think_once_commit (o : ISBE) (n : nat) (tr : list Event)
    (text : str) (tokens : Z) :
  let req := think_request o in
  let ge := generate_end env (S n) req in
  let t_elapsed := (clock env ge - clock env n)%Q in
  let oc := thought_committed (set_thinking true o) (strip text) tokens
              t_elapsed in
  generate_answer env (S n) req = Some (text, tokens) ->
  strip text <> [] ->
  _think_once env (mkWorld o n tr) =
  think_guard (compression_check env)
    (mkWorld oc (S ge)
       ((tr ++ generate_posts env (S n) req)
        ++ [EvLog (mkLogEntry (thought_count o + 1) KThought (strip text)
                     (len (context_text oc))
                     (MetaThought t_elapsed tokens
                        (if Qpositive t_elapsed
                         then (inject_Z tokens / t_elapsed)%Q else 0%Q)))])).
Proof.
  intros req ge t_elapsed oc H E.
  unfold _think_once, think_body.
  unfold bind at 1. unfold modify at 1. cbn [self tick trace].
  unfold bind at 1. unfold time_time at 1, ask at 1. cbn [self tick trace].
  unfold think_guard at 1 2.
  unfold try_finally, try_except.
  unfold bind at 1. unfold get_self at 1. cbn [self tick trace].
  unfold bind at 1. rewrite generate_outcome. cbn [self tick trace].
  name_request req. rewrite H. cbn [fst snd].
  destruct (strip text) as [|c r] eqn:Es; [contradiction|].
  unfold _log.
  unfold bind at 1. unfold modify at 1. cbn [self tick trace].
  unfold bind at 1. unfold modify at 1. cbn [self tick trace].
  unfold bind at 1. unfold time_time at 1, ask at 1. cbn [self tick trace].
  unfold bind at 1. unfold modify at 1. cbn [self tick trace].
  unfold bind at 1. unfold modify at 1. cbn [self tick trace].
  unfold bind at 1. unfold bind at 1. unfold get_self at 1.
  unfold emit at 1. cbn [self tick trace].
  reflexivity.
Qed.

(** A dialog turn whose generation raises: the exception leaves the
    method, after the [finally]. *)
Lemma respond_failure (o : ISBE) (n : nat) (tr : list Event)
    (message : option str) :
  let req := dialog_request o message in
  generate_answer env n req = None ->
  _respond_to_human env message (mkWorld o n tr) =
  (Raise RequestError,
   mkWorld (set_thinking false o) (generate_end env n req)
           (tr ++ generate_posts env n req)).
Proof.
  intros req H. unfold _respond_to_human.
  unfold_monad. rewrite generate_outcome. cbn [self tick trace].
  name_request req. rewrite H. reflexivity.
Qed.

(** A dialog turn whose generation answers: the append, then the threshold
    check under the [finally]. *)
Lemma respond_commit (o : ISBE) (n : nat) (tr : list Event)
    (message : option str) (text : str) (k : Z) :
  let req := dialog_request o message in
  let oc := dialog_committed (set_thinking true o) message (strip text) in
  generate_answer env n req = Some (text, k) ->
  _respond_to_human env message (mkWorld o n tr) =
  try_finally (compression_check env ;; ret (strip text))
              (modify (set_thinking false))
    (mkWorld oc (generate_end env n req)
       ((tr ++ generate_posts env n req)
        ++ [EvLog (mkLogEntry (thought_count o) KDialog (strip text)
                     (len (context_text oc)) (MetaDialog message))])).
Proof.
  intros req oc H. unfold _respond_to_human.
  unfold bind at 1. unfold modify at 1. cbn [self tick trace].
  unfold try_finally.
  unfold bind at 1. unfold get_self at 1. cbn [self tick trace].
  unfold bind at 1. rewrite generate_outcome. cbn [self tick trace].
  name_request req. rewrite H. cbn [fst snd].
  unfold _log.
  unfold bind at 1. unfold modify at 1. cbn [self tick trace].
  unfold bind at 1. unfold bind at 1. unfold get_self at 1.
  unfold emit at 1. cbn [self tick trace].
  reflexivity.
Qed.

End Outcomes.

(** ** Relations that every step of a computation maintains *)

Section Frame.

Variable R : World -> World -> Prop.
Hypothesis R_refl : forall w, R w w.
Hypothesis R_trans : forall a b c, R a b -> R b c -> R a c.

Lemma ensures_ret {A} (a : A) : ensures R (ret a).
Proof. intros w. apply R_refl. Qed.

Lemma ensures_raise {A} (e : exn) : ensures R (@raise A e).
Proof. intros w. apply R_refl. Qed.

Lemma ensures_get_self : ensures R get_self.
Proof. intros w. apply R_refl. Qed.

Lemma ensures_bind {A B} (m : M A) (k : A -> M B) :
  ensures R m -> (forall a, ensures R (k a)) -> ensures R (bind m k).
Proof.
  intros Hm Hk w. unfold bind. specialize (Hm w).
  destruct (m w) as [[a|e] w1]; cbn [snd] in *.
  - eapply R_trans; [exact Hm | apply Hk].
  - exact Hm.
Qed.

Lemma ensures_try_except {A} (m : M A) (h : exn -> M A) :
  ensures R m -> (forall e, ensures R (h e)) -> ensures R (try_except m h).
Proof.
  intros Hm Hh w. unfold try_except. specialize (Hm w).
  destruct (m w) as [[a|e] w1]; cbn [snd] in *.
  - exact Hm.
  - eapply R_trans; [exact Hm | apply Hh].
Qed.

Lemma ensures_try_finally {A} (m : M A) (f : M unit) :
  ensures R m -> ensures R f -> ensures R (try_finally m f).
Proof.
  intros Hm Hf w. unfold try_finally. specialize (Hm w).
  destruct (m w) as [r w1]; cbn [snd] in *. specialize (Hf w1).
  destruct (f w1) as [[u|e] w2]; cbn [snd] in *;
    eapply R_trans; eassumption.
Qed.

Lemma ensures_in_loop_thread {A} (m : M A) :
  ensures R m -> ensures R (in_loop_thread m).
Proof. intros Hm w. apply Hm. Qed.

End Frame.

Lemma same_config_refl (w : World) : same_config w w.
Proof. repeat split. Qed.

Lemma same_config_trans (a b c : World) :
  same_config a b -> same_config b c -> same_config a c.
Proof.
  unfold same_config. intros (H1 & H2 & H3 & H4 & H5 & H6)
    (K1 & K2 & K3 & K4 & K5 & K6).
  repeat split; congruence.
Qed.

Lemma extends_with_refl (P : Event -> Prop) (w : World) :
  extends_with P w w.
Proof. exists []. split; [symmetry; apply app_nil_r | constructor]. Qed.

Lemma extends_with_trans (P : Event -> Prop) (a b c : World) :
  extends_with P a b -> extends_with P b c -> extends_with P a c.
Proof.
  intros (e1 & H1 & F1) (e2 & H2 & F2). exists (e1 ++ e2). split.
  - rewrite H2, H1. symmetry. apply app_assoc.
  - apply Forall_app. split; assumption.
Qed.

Create HintDb frame.
#[local] Hint Resolve same_config_refl same_config_trans
  extends_with_refl extends_with_trans : frame.

(** One step of a structural proof of [ensures]. *)
Ltac frame_side := solve [eauto with frame].

Ltac frame_step :=
  lazymatch goal with
  | |- ensures _ (bind _ _) => apply ensures_bind; [frame_side .. | | intro]
  | |- ensures _ (ret _) => apply ensures_ret; frame_side
  | |- ensures _ (raise _) => apply ensures_raise; frame_side
  | |- ensures _ get_self => apply ensures_get_self; frame_side
  | |- ensures _ (try_except _ _) =>
      apply ensures_try_except; [frame_side .. | | intro]
  | |- ensures _ (try_finally _ _) =>
      apply ensures_try_finally; [frame_side .. | | ]
  | |- ensures _ (in_loop_thread _) => apply ensures_in_loop_thread
  | |- ensures _ (if ?c then _ else _) => destruct c
  | |- ensures _ (match ?x with _ => _ end) => destruct x
  end.

(** *** The configuration is never assigned *)

Lemma config_modify (f : ISBE -> ISBE) :
  (forall o, thought_interval (f o) = thought_interval o
             /\ max_context_chars (f o) = max_context_chars o
             /\ compress_at_chars (f o) = compress_at_chars o
             /\ seed_text (f o) = seed_text o
             /\ tool_definitions (f o) = tool_definitions o
             /\ model_name (f o) = model_name o) ->
  ensures same_config (modify f).
Proof. intros H [o n tr]. exact (H o). Qed.

Lemma config_emit (e : Event) : ensures same_config (emit e).
Proof. intros w. repeat split. Qed.

Lemma config_ask {A} (q : nat -> A) : ensures same_config (ask q).
Proof. intros w. repeat split. Qed.

Lemma config_apply_external (x : External) (o : ISBE) :
  thought_interval (apply_external x o) = thought_interval o
  /\ max_context_chars (apply_external x o) = max_context_chars o
  /\ compress_at_chars (apply_external x o) = compress_at_chars o
  /\ seed_text (apply_external x o) = seed_text o
  /\ tool_definitions (apply_external x o) = tool_definitions o
  /\ model_name (apply_external x o) = model_name o.
Proof. destruct x; repeat split. Qed.

Lemma config_fold_external (xs : list External) (o : ISBE) :
  let o' := fold_left (fun o x => apply_external x o) xs o in
  thought_interval o' = thought_interval o
  /\ max_context_chars o' = max_context_chars o
  /\ compress_at_chars o' = compress_at_chars o
  /\ seed_text o' = seed_text o
  /\ tool_definitions o' = tool_definitions o
  /\ model_name o' = model_name o.
Proof.
  revert o. induction xs as [|x xs IH]; intros o; cbn [fold_left].
  - repeat split.
  - destruct (IH (apply_external x o)) as (H1 & H2 & H3 & H4 & H5 & H6).
    destruct (config_apply_external x o) as (K1 & K2 & K3 & K4 & K5 & K6).
    cbv zeta. repeat split; congruence.
Qed.

Create HintDb config.
#[local] Hint Resolve config_emit config_ask : config.
#[local] Hint Extern 1 (ensures same_config (modify _)) =>
  apply config_modify; intro; repeat split : config.

Ltac config_frame := repeat frame_step; auto with config.

Section ConfigFrame.

Variable env : Env.

Lemma config_generate (p : str) (mt : Z) (t : Q) :
  ensures same_config (_generate env p mt t).
Proof. unfold _generate, _complete, _chat, post. config_frame. Qed.

Lemma config_log (k : LogKind) (c : str) (meta : LogMeta) :
  ensures same_config (_log k c meta).
Proof. unfold _log. config_frame. Qed.

#[local] Hint Resolve config_generate config_log : config.

Lemma config_compress : ensures same_config (_compress env).
Proof. unfold _compress. config_frame. Qed.

#[local] Hint Resolve config_compress : config.

Lemma config_compression_check : ensures same_config (compression_check env).
Proof. unfold compression_check. config_frame. Qed.

#[local] Hint Resolve config_compression_check : config.

Lemma config_think_once : ensures same_config (_think_once env).
Proof.
  unfold _think_once, think_guard, think_body, time_time. config_frame.
Qed.

Lemma config_respond (message : option str) :
  ensures same_config (_respond_to_human env message).
Proof. unfold _respond_to_human. config_frame. Qed.

#[local] Hint Resolve config_think_once config_respond : config.

Lemma config_externals : ensures same_config (externals env).
Proof.
  unfold externals. config_frame.
  apply config_modify. intro o. apply config_fold_external.
Qed.

#[local] Hint Resolve config_externals : config.

Lemma config_loop_body : ensures same_config (loop_body env).
Proof. unfold loop_body. config_frame. Qed.

#[local] Hint Resolve config_loop_body : config.

Lemma config_loop (n : nat) : ensures same_config (_loop env n).
Proof.
  induction n as [|n IH]; cbn [_loop]; config_frame.
Qed.

End ConfigFrame.

(** *** The hand-off fields are not assigned by a turn *)

Lemma same_handoff_refl (w : World) : same_handoff w w.
Proof. repeat split. Qed.

Lemma same_handoff_trans (a b c : World) :
  same_handoff a b -> same_handoff b c -> same_handoff a c.
Proof.
  unfold same_handoff. intros (H1 & H2 & H3 & H4 & H5) (K1 & K2 & K3 & K4 & K5).
  repeat split; congruence.
Qed.

#[local] Hint Resolve same_handoff_refl same_handoff_trans : frame.

Lemma handoff_modify (f : ISBE -> ISBE) :
  (forall o, alive (f o) = alive o
             /\ _human_input (f o) = _human_input o
             /\ _human_event (f o) = _human_event o
             /\ _response_text (f o) = _response_text o
             /\ _response_event (f o) = _response_event o) ->
  ensures same_handoff (modify f).
Proof. intros H [o n tr]. exact (H o). Qed.

Lemma handoff_emit (e : Event) : ensures same_handoff (emit e).
Proof. intros w. repeat split. Qed.

Lemma handoff_ask {A} (q : nat -> A) : ensures same_handoff (ask q).
Proof. intros w. repeat split. Qed.

Create HintDb handoff.
#[local] Hint Resolve handoff_emit handoff_ask : handoff.
#[local] Hint Extern 1 (ensures same_handoff (modify _)) =>
  apply handoff_modify; intro; repeat split : handoff.

Ltac handoff_frame := repeat frame_step; auto with handoff.

Section HandoffFrame.

Variable env : Env.

Lemma handoff_generate (p : str) (mt : Z) (t : Q) :
  ensures same_handoff (_generate env p mt t).
Proof. unfold _generate, _complete, _chat, post. handoff_frame. Qed.

Lemma handoff_log (k : LogKind) (c : str) (meta : LogMeta) :
  ensures same_handoff (_log k c meta).
Proof. unfold _log. handoff_frame. Qed.

#[local] Hint Resolve handoff_generate handoff_log : handoff.

Lemma handoff_compress : ensures same_handoff (_compress env).
Proof. unfold _compress. handoff_frame. Qed.

#[local] Hint Resolve handoff_compress : handoff.

Lemma handoff_compression_check :
  ensures same_handoff (compression_check env).
Proof. unfold compression_check. handoff_frame. Qed.

#[local] Hint Resolve handoff_compression_check : handoff.

Lemma handoff_think_once : ensures same_handoff (_think_once env).
Proof.
  unfold _think_once, think_guard, think_body, time_time. handoff_frame.
Qed.

Lemma handoff_respond (message : option str) :
  ensures same_handoff (_respond_to_human env message).
Proof. unfold _respond_to_human. handoff_frame. Qed.

End HandoffFrame.

(** *** What a method can add to the trace *)

Section TraceFrame.

Variable env : Env.
Variable P : Event -> Prop.

Lemma trace_modify (f : ISBE -> ISBE) : ensures (extends_with P) (modify f).
Proof.
  intros w. exists []. split; [symmetry; apply app_nil_r | constructor].
Qed.

Lemma trace_ask {A} (q : nat -> A) : ensures (extends_with P) (ask q).
Proof.
  intros w. exists []. split; [symmetry; apply app_nil_r | constructor].
Qed.

Lemma trace_emit (e : Event) : P e -> ensures (extends_with P) (emit e).
Proof.
  intros H w. exists [e]. split; [reflexivity | repeat constructor; exact H].
Qed.

Lemma trace_post (ep : Endpoint) (p : str) (mt : Z) (t : Q) :
  posts_ok P mt t -> ensures (extends_with P) (post env ep p mt t).
Proof.
  intros H. unfold post. repeat frame_step;
    first [apply trace_ask | apply trace_emit; apply (H ep a p)].
Qed.

Lemma trace_generate (p : str) (mt : Z) (t : Q) :
  posts_ok P mt t -> ensures (extends_with P) (_generate env p mt t).
Proof.
  intros H. unfold _generate, _complete, _chat.
  repeat frame_step; apply trace_post; exact H.
Qed.

Lemma trace_log (k : LogKind) (c : str) (meta : LogMeta) :
  logs_ok P k -> ensures (extends_with P) (_log k c meta).
Proof.
  intros H. unfold _log. repeat frame_step.
  apply trace_emit. apply H. reflexivity.
Qed.

Lemma trace_compress :
  posts_ok P compress_max_tokens compress_temperature ->
  logs_ok P KCompress ->
  ensures (extends_with P) (_compress env).
Proof.
  intros Hp Hl. unfold _compress. repeat frame_step;
    first [apply trace_modify | apply trace_generate; exact Hp
          | apply trace_log; exact Hl].
Qed.

Lemma trace_compression_check :
  posts_ok P compress_max_tokens compress_temperature ->
  logs_ok P KCompress ->
  ensures (extends_with P) (compression_check env).
Proof.
  intros Hp Hl. unfold compression_check. repeat frame_step.
  apply trace_compress; assumption.
Qed.

Lemma trace_respond (message : option str) :
  posts_ok P dialog_max_tokens dialog_temperature ->
  logs_ok P KDialog ->
  posts_ok P compress_max_tokens compress_temperature ->
  logs_ok P KCompress ->
  ensures (extends_with P) (_respond_to_human env message).
Proof.
  intros Hp Hl Hcp Hcl. unfold _respond_to_human. repeat frame_step;
    first [apply trace_modify | apply trace_generate; exact Hp
          | apply trace_log; exact Hl
          | apply trace_compression_check; assumption].
Qed.

End TraceFrame.

(** The events added by a computation are the suffix [extends_with]
    speaks of. *)
Lemma new_events_extends {A} (P : Event -> Prop) (m : M A) (w : World) :
  extends_with P w (snd (m w)) -> Forall P (new_events m w).
Proof.
  intros (evs & H & F). unfold new_events. rewrite H.
  rewrite skipn_app, skipn_all, Nat.sub_diag. exact F.
Qed.

Lemma in_new_suffix (tr pre : list Event) (e : Event) (evs full : list Event) :
  full = (tr ++ pre) ++ e :: evs -> In e (skipn (length tr) full).
Proof.
  intros ->. rewrite <- app_assoc, skipn_app, skipn_all, Nat.sub_diag.
  cbn [skipn app]. apply in_elt.
Qed.

Lemma new_events_app {A} (m : M A) (w : World) (evs : list Event) :
  trace (snd (m w)) = trace w ++ evs -> new_events m w = evs.
Proof.
  intros H. unfold new_events. rewrite H.
  rewrite skipn_app, skipn_all, Nat.sub_diag. reflexivity.
Qed.

(** *** No method looks at [max_context_chars] *)

Lemma oblivious_ret {A} (a : A) : oblivious (ret a).
Proof. intros v w. reflexivity. Qed.

Lemma oblivious_raise {A} (e : exn) : oblivious (@raise A e).
Proof. intros v w. reflexivity. Qed.

Lemma oblivious_bind {A B} (m : M A) (k : A -> M B) :
  oblivious m -> (forall a, oblivious (k a)) -> oblivious (bind m k).
Proof.
  intros Hm Hk v w. unfold bind. rewrite Hm.
  destruct (m w) as [[a|e] w1]; cbn [fst snd]; [apply Hk | reflexivity].
Qed.

(** Reading the object is harmless when what follows does not depend on
    the field. *)
Lemma oblivious_get {B} (k : ISBE -> M B) :
  (forall o, oblivious (k o)) ->
  (forall o v, k (set_max_context_chars v o) = k o) ->
  oblivious (bind get_self k).
Proof.
  intros Hk Hi v [o n tr]. unfold bind, get_self, with_max_context.
  cbn [self tick trace]. rewrite Hi.
  apply (Hk o v (mkWorld o n tr)).
Qed.

Lemma oblivious_try_except {A} (m : M A) (h : exn -> M A) :
  oblivious m -> (forall e, oblivious (h e)) -> oblivious (try_except m h).
Proof.
  intros Hm Hh v w. unfold try_except. rewrite Hm.
  destruct (m w) as [[a|e] w1]; cbn [fst snd]; [reflexivity | apply Hh].
Qed.

Lemma oblivious_try_finally {A} (m : M A) (f : M unit) :
  oblivious m -> oblivious f -> oblivious (try_finally m f).
Proof.
  intros Hm Hf v w. unfold try_finally. rewrite Hm.
  destruct (m w) as [r w1]; cbn [fst snd]. rewrite Hf.
  destruct (f w1) as [[u|e] w2]; reflexivity.
Qed.

Lemma oblivious_in_loop_thread {A} (m : M A) :
  oblivious m -> oblivious (in_loop_thread m).
Proof. intros Hm v w. unfold in_loop_thread. rewrite Hm. reflexivity. Qed.

Lemma oblivious_modify (f : ISBE -> ISBE) :
  (forall v o, f (set_max_context_chars v o) = set_max_context_chars v (f o))
  -> oblivious (modify f).
Proof.
  intros H v [o n tr]. unfold modify, with_max_context.
  cbn [self tick trace fst snd]. rewrite H. reflexivity.
Qed.

Lemma oblivious_emit (e : Event) : oblivious (emit e).
Proof. intros v w. reflexivity. Qed.

Lemma oblivious_ask {A} (q : nat -> A) : oblivious (ask q).
Proof. intros v w. reflexivity. Qed.

Lemma apply_external_max (x : External) (v : Z) (o : ISBE) :
  apply_external x (set_max_context_chars v o)
  = set_max_context_chars v (apply_external x o).
Proof. destruct x; reflexivity. Qed.

Lemma fold_external_max (xs : list External) (v : Z) (o : ISBE) :
  fold_left (fun o x => apply_external x o) xs (set_max_context_chars v o)
  = set_max_context_chars v
      (fold_left (fun o x => apply_external x o) xs o).
Proof.
  revert o. induction xs as [|x xs IH]; intros o; cbn [fold_left].
  - reflexivity.
  - rewrite apply_external_max. apply IH.
Qed.

Create HintDb oblivious.
#[local] Hint Resolve oblivious_emit oblivious_ask oblivious_ret
  oblivious_raise : oblivious.
#[local] Hint Extern 1 (oblivious (modify _)) =>
  apply oblivious_modify; intros; reflexivity : oblivious.

Ltac oblivious_step :=
  lazymatch goal with
  | |- oblivious (bind get_self _) =>
      apply oblivious_get; [intro | intros; reflexivity]
  | |- oblivious (bind _ _) => apply oblivious_bind; [ | intro]
  | |- oblivious (try_except _ _) =>
      apply oblivious_try_except; [ | intro]
  | |- oblivious (try_finally _ _) => apply oblivious_try_finally
  | |- oblivious (in_loop_thread _) => apply oblivious_in_loop_thread
  | |- oblivious (if ?c then _ else _) => destruct c
  | |- oblivious (match ?x with _ => _ end) => destruct x
  end.

Ltac oblivious_frame := repeat oblivious_step; auto with oblivious.

Section Oblivious.

Variable env : Env.

Lemma oblivious_generate (p : str) (mt : Z) (t : Q) :
  oblivious (_generate env p mt t).
Proof. unfold _generate, _complete, _chat, post. oblivious_frame. Qed.

Lemma oblivious_log (k : LogKind) (c : str) (meta : LogMeta) :
  oblivious (_log k c meta).
Proof. unfold _log. oblivious_frame. Qed.

#[local] Hint Resolve oblivious_generate oblivious_log : oblivious.

Lemma oblivious_compress : oblivious (_compress env).
Proof. unfold _compress. oblivious_frame. Qed.

#[local] Hint Resolve oblivious_compress : oblivious.

Lemma oblivious_compression_check : oblivious (compression_check env).
Proof. unfold compression_check. oblivious_frame. Qed.

#[local] Hint Resolve oblivious_compression_check : oblivious.

Lemma oblivious_think_once : oblivious (_think_once env).
Proof.
  unfold _think_once, think_guard, think_body, time_time. oblivious_frame.
Qed.

Lemma oblivious_respond (message : option str) :
  oblivious (_respond_to_human env message).
Proof. unfold _respond_to_human. oblivious_frame. Qed.

#[local] Hint Resolve oblivious_think_once oblivious_respond : oblivious.

Lemma oblivious_externals : oblivious (externals env).
Proof.
  unfold externals. oblivious_frame.
  apply oblivious_modify. intros v o. apply fold_external_max.
Qed.

#[local] Hint Resolve oblivious_externals : oblivious.

Lemma oblivious_loop_body : oblivious (loop_body env).
Proof. unfold loop_body. oblivious_frame. Qed.

#[local] Hint Resolve oblivious_loop_body : oblivious.

Lemma oblivious_loop (n : nat) : oblivious (_loop env n).
Proof. induction n as [|n IH]; cbn [_loop]; oblivious_frame. Qed.

#[local] Hint Resolve oblivious_loop : oblivious.

Lemma oblivious_speak (message : str) (turns : nat) :
  oblivious (speak env message turns).
Proof.
  unfold speak. oblivious_frame.
Qed.

Lemma oblivious_session (id : str) (n : nat) : oblivious (session env id n).
Proof. unfold session, start, load. oblivious_frame. Qed.

End Oblivious.

(** ** The loop, one iteration at a time *)

Section LoopSteps.

Variable env : Env.

Lemma externals_none (w : World) :
  arrivals env (tick w) = [] ->
  externals env w = (Ok tt, mkWorld (self w) (S (tick w)) (trace w)).
Proof.
  intros H. unfold externals. unfold_monad. rewrite H. reflexivity.
Qed.

(** A think turn lets no exception out. *)
Lemma think_once_returns (w : World) : fst (_think_once env w) = Ok tt.
Proof.
  unfold _think_once. unfold_monad. rewrite think_guard_outcome. reflexivity.
Qed.

(** An iteration with no interjection pending: the think turn, then the
    wait. *)
Lemma loop_body_think (w : World) :
  _human_event (self w) = false ->
  loop_body env w =
  (let w1 := snd (_think_once env w) in
   (Ok tt,
    mkWorld (self w1) (tick w1)
            (trace w1 ++ [EvWait (wait_timeout (self w1))]))).
Proof.
  intros H. unfold loop_body. unfold bind at 1. unfold get_self at 1.
  rewrite H. unfold bind at 1.
  pose proof (think_once_returns w) as Hr.
  destruct (_think_once env w) as [[[]|e] w1]; cbn [fst snd] in Hr |- *;
    [reflexivity | discriminate].
Qed.

(** An iteration with an interjection pending: the event is cleared, the
    dialog turn runs, and its response is handed over. *)
Lemma loop_body_dialog (w : World) :
  _human_event (self w) = true ->
  loop_body env w =
  (let w0 := mkWorld (set_human_event false (self w)) (tick w) (trace w) in
   let r := _respond_to_human env (_human_input (self w)) w0 in
   match fst r with
   | Ok response =>
       (Ok tt,
        mkWorld (set_response_event true
                   (set_response_text (Some response) (self (snd r))))
                (tick (snd r)) (trace (snd r)))
   | Raise e => (Raise e, snd r)
   end).
Proof.
  intros H. unfold loop_body. unfold bind at 1. unfold get_self at 1.
  rewrite H. unfold bind at 1. unfold modify at 1.
  unfold bind at 1. cbv zeta.
  destruct (_respond_to_human env _ _) as [[response|e] w1];
    reflexivity.
Qed.

Lemma loop_step (n : nat) (w : World) :
  arrivals env (tick w) = [] ->
  alive (self w) = true ->
  _loop env (S n) w =
  (let r := loop_body env (mkWorld (self w) (S (tick w)) (trace w)) in
   match fst r with
   | Ok _ => _loop env n (snd r)
   | Raise e => (Raise e, snd r)
   end).
Proof.
  intros Ha Hl. cbn [_loop]. unfold bind at 1. rewrite externals_none by exact Ha.
  unfold bind at 1. unfold get_self at 1. cbn [self]. rewrite Hl.
  unfold bind. cbv zeta.
  destruct (loop_body env _) as [[[]|e] w1]; reflexivity.
Qed.

End LoopSteps.

(** Two runs of the loop with other threads at work.  A submission that
    arrives before the loop looks is answered in the first iteration,
    without a thought; a [stop] makes the loop return at its next test of
    [alive]. *)
Example loop_answers_caller :
  let r := _loop Scenario.caller_arrives 1 Scenario.started in
  fst r = Ok Running
  /\ _response_text (self (snd r)) = Some Scenario.hi
  /\ _response_event (self (snd r)) = true
  /\ thought_count (self (snd r)) = 0
  /\ posted (trace (snd r)) = [(512, 0.7%Q)].
Proof. vm_compute. repeat split. Qed.

Example loop_exits_on_stop :
  let r := _loop Scenario.stopped_after_one 5 Scenario.started in
  fst r = Ok Exited
  /\ alive (self (snd r)) = false
  /\ thought_count (self (snd r)) = 1.
Proof. vm_compute. repeat split. Qed.

(** ** Properties of the session core *)

(** C6. A successful think turn, one whose call is answered with a token
    count that converts to a float (otherwise l.290 raises before the
    append), whose generated text is non-empty once stripped, and whose
    append leaves the context within [compress_at_chars], appends exactly
    the stripped text and one newline: the context length after the turn
    is the length before, plus the length of the stripped text, plus one.
    The statement is about any world, hence about every turn of any
    sequence of such turns. *)
Theorem think_turn_adds_text_and_separator
    (env : Env) (w : World) (text : str) (tokens : Z) :
  generate_answer env (S (tick w)) (think_request (self w))
    = Some (text, tokens) ->
  fits_float tokens ->
  strip text <> [] ->
  len (context_text (self w) ++ strip text ++ Lit.nl)
    <= compress_at_chars (self w) ->
  let w' := snd (_think_once env w) in
  context_text (self w') = context_text (self w) ++ strip text ++ Lit.nl
  /\ len (context_text (self w'))
     = len (context_text (self w)) + len (strip text) + len Lit.nl
  /\ len Lit.nl = 1
  /\ compression_count (self w') = compression_count (self w).
Proof.
  destruct w as [o n tr]. cbn [self tick]. intros Hgen _ Hne Hle.
  rewrite (think_once_commit env o n tr text tokens Hgen Hne).
  rewrite think_guard_outcome.
  rewrite compression_check_below by exact Hle.
  simpl_fields. rewrite !len_app. repeat split; lia.
Qed.

(** An instance: the seed ["XYZ"], a think call answered [" hi\n"]. *)
Lemma think_turn_adds_text_and_separator_witness :
  let env := Scenario.mock (fun _ => Some ([32; 104; 105; 10]%N, 2)) in
  let w' := snd (_think_once env Scenario.started) in
  context_text (self w') = [88; 89; 90; 104; 105; 10]%N
  /\ len (context_text (self w')) = 3 + 2 + 1
  /\ len Lit.nl = 1
  /\ compression_count (self w') = 0.
Proof.
  intros env.
  apply (think_turn_adds_text_and_separator env Scenario.started
           [32; 104; 105; 10]%N 2).
  - reflexivity.
  - reflexivity.
  - discriminate.
  - vm_compute. discriminate.
Defined.

(** C3. A compression whose backend call raises is abandoned whole:
    (1) [_compress] leaves the context as it was (only its counter has
    moved); (2) a think turn in which that happens ends normally, with the
    context at its oversized value, the old context followed by the new
    thought; (3, 4) from a context above [compress_at_chars], the next
    think turn that appends, and the next dialog turn, call the backend
    for a compression again, on the context just appended to.  In (2) to
    (4) the turn is one that reaches its threshold check: the token count
    converts to a float, and the text printed and logged between the
    append and the check, the message included, holds no lone
    surrogate. *)
Theorem failed_compression_keeps_context (env : Env) :
  (forall w,
     generate_answer env (tick w) (compress_request (counted (self w)))
       = None ->
     fst (_compress env w) = Raise RequestError
     /\ context_text (self (snd (_compress env w))) = context_text (self w)
     /\ self (snd (_compress env w)) = counted (self w))
  /\ (forall w text tokens,
        let req := think_request (self w) in
        let appended := context_text (self w) ++ strip text ++ Lit.nl in
        generate_answer env (S (tick w)) req = Some (text, tokens) ->
        fits_float tokens ->
        encodable (strip text) = true ->
        strip text <> [] ->
        len appended > compress_at_chars (self w) ->
        generate_answer env (S (generate_end env (S (tick w)) req))
          (request_of (self w) (compress_prompt appended)
             compress_max_tokens compress_temperature) = None ->
        fst (_think_once env w) = Ok tt
        /\ context_text (self (snd (_think_once env w))) = appended)
  /\ (forall w text tokens,
        let appended := context_text (self w) ++ strip text ++ Lit.nl in
        len (context_text (self w)) > compress_at_chars (self w) ->
        generate_answer env (S (tick w)) (think_request (self w))
          = Some (text, tokens) ->
        fits_float tokens ->
        encodable (strip text) = true ->
        strip text <> [] ->
        In (EvPost Completions
              (request_of (self w) (compress_prompt appended)
                 compress_max_tokens compress_temperature))
           (new_events (_think_once env) w))
  /\ (forall w message text k,
        let appended :=
          (context_text (self w) ++ injection message)
          ++ strip text ++ Lit.nl in
        len (context_text (self w)) > compress_at_chars (self w) ->
        generate_answer env (tick w) (dialog_request (self w) message)
          = Some (text, k) ->
        encodable (format_message message) = true ->
        encodable (strip text) = true ->
        In (EvPost Completions
              (request_of (self w) (compress_prompt appended)
                 compress_max_tokens compress_temperature))
           (new_events (_respond_to_human env message) w)).
Proof.
  split; [|split; [|split]].
  - intros w H. rewrite (compress_failure env w H). repeat split.
  - intros [o n tr] text tokens req appended. cbn [self tick] in req, appended |- *.
    intros Hgen _ _ Hne Hgt Hfail.
    split; [apply think_once_returns|].
    rewrite (think_once_commit env o n tr text tokens Hgen Hne).
    rewrite think_guard_outcome.
    rewrite compression_check_above by exact Hgt.
    rewrite compress_failure by exact Hfail.
    reflexivity.
  - intros [o n tr] text tokens appended. cbn [self tick] in appended |- *.
    intros Hover Hgen _ _ Hne.
    assert (Hgt : len appended > compress_at_chars o).
    { unfold appended. rewrite !len_app.
      pose proof (len_nonneg (strip text)). pose proof (len_nonneg Lit.nl).
      lia. }
    unfold new_events.
    rewrite (think_once_commit env o n tr text tokens Hgen Hne).
    rewrite think_guard_outcome.
    rewrite compression_check_above by exact Hgt.
    match goal with
    | |- context [_compress env ?wc] =>
        destruct (compress_summary env wc) as (_ & _ & evs & Htr);
        destruct (_compress env wc) as [r w1]
    end.
    cbn [fst snd self tick trace] in Htr |- *.
    assert (Hin : In (EvPost Completions
                        (request_of o (compress_prompt appended)
                           compress_max_tokens compress_temperature))
                     (skipn (length tr) (trace w1))).
    { rewrite <- (app_assoc tr) in Htr.
      exact (in_new_suffix _ _ _ _ _ Htr). }
    destruct r as [u|e]; [exact Hin|].
    rewrite skipn_app. apply in_or_app. left. exact Hin.
  - intros [o n tr] message text k appended.
    cbn [self tick] in appended |- *. intros Hover Hgen _ _.
    assert (Hgt : len appended > compress_at_chars o).
    { unfold appended. rewrite !len_app.
      pose proof (len_nonneg (strip text)). pose proof (len_nonneg Lit.nl).
      pose proof (len_nonneg (injection message)). lia. }
    unfold new_events.
    rewrite (respond_commit env o n tr message text k Hgen).
    rewrite finally_outcome.
    unfold bind at 1 2. rewrite compression_check_above by exact Hgt.
    match goal with
    | |- context [_compress env ?wc] =>
        destruct (compress_summary env wc) as (_ & _ & evs & Htr);
        destruct (_compress env wc) as [r w1]
    end.
    cbn [fst snd self tick trace] in Htr.
    assert (Hin : In (EvPost Completions
                        (request_of o (compress_prompt appended)
                           compress_max_tokens compress_temperature))
                     (skipn (length tr) (trace w1))).
    { rewrite <- (app_assoc tr) in Htr.
      exact (in_new_suffix _ _ _ _ _ Htr). }
    destruct r as [u|e]; exact Hin.
Qed.

(** An instance: a think call answered with sixty characters, then an
    unreachable backend, then a turn that appends again. *)
Lemma failed_compression_keeps_context_witness :
  let env := Scenario.think_then_fail in
  let w := Scenario.started in
  let over := snd (_think_once env w) in
  (fst (_compress env w) = Raise RequestError
   /\ context_text (self (snd (_compress env w))) = Scenario.seed3)
  /\ (fst (_think_once env w) = Ok tt
      /\ context_text (self over) = Scenario.seed3 ++ Scenario.a60 ++ Lit.nl)
  /\ In (EvPost Completions
           (request_of (self over)
              (compress_prompt
                 (context_text (self over) ++ Scenario.hi ++ Lit.nl))
              compress_max_tokens compress_temperature))
        (new_events (_think_once env) over)
  /\ In (EvPost Completions
           (request_of (self over)
              (compress_prompt
                 ((context_text (self over) ++ injection (Some Scenario.hi))
                  ++ Scenario.hi ++ Lit.nl))
              compress_max_tokens compress_temperature))
        (new_events (_respond_to_human Scenario.always_hi (Some Scenario.hi))
                    over).
Proof.
  intros env w over.
  destruct (failed_compression_keeps_context env) as (A & B & C & _).
  destruct (failed_compression_keeps_context Scenario.always_hi)
    as (_ & _ & _ & D).
  split; [|split; [|split]].
  - destruct (A w) as (A1 & A2 & _); [reflexivity|].
    split; [exact A1 | exact A2].
  - apply (B w Scenario.a60 12).
    + reflexivity.
    + reflexivity.
    + reflexivity.
    + vm_compute. discriminate.
    + vm_compute. reflexivity.
    + reflexivity.
  - apply (C over Scenario.hi 2).
    + vm_compute. reflexivity.
    + reflexivity.
    + reflexivity.
    + reflexivity.
    + vm_compute. discriminate.
  - apply (D over (Some Scenario.hi) Scenario.hi 2).
    + vm_compute. reflexivity.
    + reflexivity.
    + reflexivity.
    + reflexivity.
Defined.

(** C5. [tool_definitions], extracted from the seed by [__init__], is
    assigned nowhere else: at the end of any number of loop iterations of
    any session it is still the extraction from the seed.  Every
    successful compression leaves a context that begins with it verbatim,
    followed by the core-memory tag, the stripped summary and the
    continuation cue, so the context is never shorter than it; the same
    holds for a second compression run straight after the first. *)
Theorem tool_preamble_survives_compression (env : Env) :
  (forall ti mc ca sn cs id n,
     let o0 := __init__ ti mc ca sn cs in
     tool_definitions (self (snd (session env id n (mkWorld o0 O []))))
     = extract_tool_definitions (seed_text o0))
  /\ (forall w,
        fst (_compress env w) = Ok tt ->
        let preamble := tool_definitions (self w) in
        let w1 := snd (_compress env w) in
        tool_definitions (self w1) = preamble
        /\ (exists summary,
              context_text (self w1)
              = preamble ++ Lit.core_memory ++ strip summary
                ++ Lit.continuation)
        /\ len preamble <= len (context_text (self w1)))
  /\ (forall w,
        fst (_compress env w) = Ok tt ->
        fst (_compress env (snd (_compress env w))) = Ok tt ->
        let preamble := tool_definitions (self w) in
        let w2 := snd (_compress env (snd (_compress env w))) in
        (exists summary,
           context_text (self w2)
           = preamble ++ Lit.core_memory ++ strip summary
             ++ Lit.continuation)
        /\ len preamble <= len (context_text (self w2))).
Proof.
  assert (One : forall w,
    fst (_compress env w) = Ok tt ->
    tool_definitions (self (snd (_compress env w))) = tool_definitions (self w)
    /\ (exists summary,
          context_text (self (snd (_compress env w)))
          = tool_definitions (self w) ++ Lit.core_memory ++ strip summary
            ++ Lit.continuation)
    /\ len (tool_definitions (self w))
       <= len (context_text (self (snd (_compress env w))))).
  { intros w. rewrite compress_outcome.
    destruct (generate_answer env (tick w) _) as [[summary k]|];
      [|discriminate].
    cbv zeta. destruct (len (context_text (self w)) =? 0); [discriminate|].
    intros _. simpl_fields. split; [reflexivity|]. split.
    - exists summary. reflexivity.
    - fold (compressed_context (tool_definitions (self w)) (strip summary)).
      rewrite len_compressed_context.
      pose proof (len_nonneg (strip summary)). lia. }
  split; [|split].
  - intros ti mc ca sn cs id n o0. unfold session.
    unfold bind.
    destruct (start id (mkWorld o0 O [])) as [r w0] eqn:Es.
    assert (Hw0 : tool_definitions (self w0)
                  = extract_tool_definitions (seed_text o0)).
    { apply (f_equal snd) in Es. cbn [snd] in Es. subst w0. reflexivity. }
    assert (Hr : r = Ok tt).
    { apply (f_equal fst) in Es. cbn [fst] in Es. subst r. reflexivity. }
    subst r. rewrite <- Hw0.
    apply (config_loop env n w0).
  - intros w H. exact (One w H).
  - intros w H1 H2 preamble w2.
    destruct (One w H1) as (T1 & _ & _).
    destruct (One _ H2) as (T2 & C2 & L2).
    fold w2 in T2, C2, L2. rewrite T1 in C2, L2. split; assumption.
Qed.

(** An instance: the seed that opens with the tool section, whose
    extraction is 189 characters long, compressed twice in a row. *)
Lemma tool_preamble_survives_compression_witness :
  let env := Scenario.always_hi in
  let w := Scenario.started_with_tools in
  let preamble := extract_tool_definitions Scenario.seed_with_tools in
  let w1 := snd (_compress env w) in
  let w2 := snd (_compress env w1) in
  len preamble = 189
  /\ (tool_definitions (self w1) = preamble
      /\ (exists summary,
            context_text (self w1)
            = preamble ++ Lit.core_memory ++ strip summary
              ++ Lit.continuation)
      /\ len preamble <= len (context_text (self w1)))
  /\ ((exists summary,
         context_text (self w2)
         = preamble ++ Lit.core_memory ++ strip summary ++ Lit.continuation)
      /\ len preamble <= len (context_text (self w2))).
Proof.
  intros env w preamble w1 w2.
  destruct (tool_preamble_survives_compression env) as (_ & A & B).
  split; [reflexivity|]. split.
  - apply (A w). reflexivity.
  - apply (B w); reflexivity.
Defined.

(** The first thing a think turn adds to the trace is its POST to the
    completion endpoint. *)
Lemma think_once_head (env : Env) (w : World) :
  exists rest,
    new_events (_think_once env) w
    = EvPost Completions (think_request (self w)) :: rest.
Proof.
  destruct w as [o n tr]. cbn [self].
  destruct (generate_posts_head env (S n) (think_request o)) as [ps Hps].
  destruct (generate_answer env (S n) (think_request o))
    as [[text tokens]|] eqn:Hgen.
  - destruct (strip text) as [|c r] eqn:Hs.
    + exists ps. apply new_events_app.
      rewrite (think_once_empty env o n tr text tokens Hgen Hs).
      cbn [snd trace]. rewrite Hps. reflexivity.
    + assert (Hne : strip text <> []) by (rewrite Hs; discriminate).
      unfold new_events.
      rewrite (think_once_commit env o n tr text tokens Hgen Hne).
      rewrite think_guard_outcome.
      match goal with
      | |- context [compression_check env ?wc] =>
          destruct (trace_compression_check env (fun _ => True)
                      (fun _ _ _ => I) (fun _ _ => I) wc)
            as (evs & Htr & _);
          destruct (compression_check env wc) as [res w1]
      end.
      cbn [fst snd self tick trace] in Htr |- *. rewrite Htr, Hps.
      destruct res as [u|e]; eexists;
        rewrite <- !app_assoc, skipn_app, skipn_all, Nat.sub_diag;
        cbn [skipn app]; reflexivity.
  - exists (ps ++ [EvSleep backoff_seconds]). apply new_events_app.
    rewrite (think_once_failure env o n tr Hgen).
    cbn [snd trace]. rewrite Hps. reflexivity.
Qed.

(** C7, as the code has it.  Every POST of a compression carries the
    temperature 0.5 and the budget of 300 tokens, and a compression makes
    at least one; a think turn posts with temperature 0.85 and 256 tokens.
    So the temperature of a compression is strictly lower than that of a
    think turn, and its output budget is strictly larger, not smaller. *)
Theorem compression_sampling_parameters (env : Env) (w : World) :
  Forall (fun e => forall ep r, e = EvPost ep r ->
                     max_tokens r = 300 /\ temperature r = 0.5%Q)
         (new_events (_compress env) w)
  /\ (exists rest,
        new_events (_compress env) w
        = EvPost Completions (compress_request (counted (self w))) :: rest)
  /\ (exists rest,
        new_events (_think_once env) w
        = EvPost Completions (think_request (self w)) :: rest)
  /\ max_tokens (think_request (self w)) = 256
  /\ temperature (think_request (self w)) = 0.85%Q
  /\ (compress_temperature < think_temperature)%Q
  /\ think_max_tokens < compress_max_tokens.
Proof.
  split; [|split; [|split; [|split; [|split; [|split]]]]].
  - apply new_events_extends. apply trace_compress.
    + intros ep o p ep' r H. injection H as _ <-. split; reflexivity.
    + intros l _ ep r H. discriminate H.
  - destruct (compress_summary env w) as (_ & _ & evs & Htr).
    exists evs. apply new_events_app. exact Htr.
  - apply think_once_head.
  - reflexivity.
  - reflexivity.
  - reflexivity.
  - reflexivity.
Qed.

(** C7 as stated fails: in the run of one think turn that crosses the
    threshold, the think call asks for 256 tokens and the compression call
    for 300, which is not fewer. *)
Lemma compression_budget_counterexample :
  let calls :=
    posted (trace (snd (_think_once Scenario.long_summary
                          Scenario.started))) in
  calls = [(256, 0.85%Q); (300, 0.5%Q)]
  /\ ~ (forall think compress,
          calls = [think; compress] ->
          (snd compress < snd think)%Q /\ fst compress < fst think).
Proof.
  split; [vm_compute; reflexivity|].
  intros H. destruct (H (256, 0.85%Q) (300, 0.5%Q)) as [_ Hlt].
  - vm_compute. reflexivity.
  - cbn [fst] in Hlt. lia.
Qed.

(** Returning a value after [m] leaves the world [m] leaves. *)
Lemma then_ret_world {A B} (m : M A) (b : B) (w : World) :
  snd ((m ;; ret b) w) = snd (m w).
Proof. unfold bind, ret. destruct (m w) as [[a|e] w1]; reflexivity. Qed.

Lemma then_ret_result {A B} (m : M A) (b : B) (w : World) :
  fst ((m ;; ret b) w)
  = match fst (m w) with Ok _ => Ok b | Raise e => Raise e end.
Proof. unfold bind, ret. destruct (m w) as [[a|e] w1]; reflexivity. Qed.

(** What the threshold check does to the counters. *)
Lemma compression_check_counts (env : Env) (w : World) :
  let w' := snd (compression_check env w) in
  compression_count (self w')
  = compression_count (self w)
    + (if len (context_text (self w)) >? compress_at_chars (self w)
       then 1 else 0)
  /\ thought_count (self w') = thought_count (self w).
Proof.
  destruct (Z.gtb_spec (len (context_text (self w)))
                       (compress_at_chars (self w))) as [Hgt|Hle].
  - rewrite compression_check_above by lia.
    destruct (compress_summary env w) as (Hc & Ht & _).
    split; assumption.
  - rewrite compression_check_below by exact Hle.
    cbn [snd]. split; [lia | reflexivity].
Qed.

(** C4, as the code has it.  (1, 2) A think turn that appends, and a
    dialog turn whose generation answers, check the threshold before they
    end, provided the statements between the append and the check pass:
    the token count converts to a float and the text that is printed and
    logged, the message included, holds no lone surrogate.  A compression
    cycle then runs in that same turn exactly when the context just
    appended to is longer than [compress_at_chars].  (3) In the scenario
    (a seed of three characters, threshold 50, the first think call
    answered with a string of sixty such characters that has no white
    space at either end), the context is 64 long after the append,
    a compression runs in the turn, and when its call is answered with
    [summary] the new context is the core-memory tag, the stripped summary
    and the continuation cue, 41 characters longer than the stripped
    summary: no longer than 64 exactly when the stripped summary has at
    most 23 characters. *)
Theorem threshold_checked_after_append (env : Env) :
  (forall w text tokens,
     let appended := context_text (self w) ++ strip text ++ Lit.nl in
     generate_answer env (S (tick w)) (think_request (self w))
       = Some (text, tokens) ->
     fits_float tokens ->
     encodable (strip text) = true ->
     strip text <> [] ->
     compression_count (self (snd (_think_once env w)))
     = compression_count (self w)
       + (if len appended >? compress_at_chars (self w) then 1 else 0))
  /\ (forall w message text k,
        let appended :=
          (context_text (self w) ++ injection message)
          ++ strip text ++ Lit.nl in
        generate_answer env (tick w) (dialog_request (self w) message)
          = Some (text, k) ->
        encodable (format_message message) = true ->
        encodable (strip text) = true ->
        compression_count (self (snd (_respond_to_human env message w)))
        = compression_count (self w)
          + (if len appended >? compress_at_chars (self w) then 1 else 0))
  /\ (forall w seed text tokens,
        let appended := seed ++ text ++ Lit.nl in
        let w' := snd (_think_once env w) in
        context_text (self w) = seed ->
        length seed = 3%nat ->
        tool_definitions (self w) = extract_tool_definitions seed ->
        compress_at_chars (self w) = 50 ->
        complete env (S (tick w)) (think_request (self w))
          = Some (text, tokens) ->
        fits_float tokens ->
        encodable text = true ->
        length text = 60%nat ->
        strip text = text ->
        len appended = 64
        /\ In (KThought, 64) (logged_lengths (new_events (_think_once env) w))
        /\ compression_count (self w') = compression_count (self w) + 1
        /\ forall summary k,
             complete env (S (S (S (tick w))))
               (request_of (self w) (compress_prompt appended)
                  compress_max_tokens compress_temperature)
               = Some (summary, k) ->
             context_text (self w')
             = Lit.core_memory ++ strip summary ++ Lit.continuation
             /\ len (context_text (self w')) = len (strip summary) + 41
             /\ (len (context_text (self w')) <= len appended
                 <-> len (strip summary) <= 23)).
Proof.
  split; [|split].
  - intros [o n tr] text tokens appended. cbn [self tick] in appended |- *.
    intros Hgen _ _ Hne.
    rewrite (think_once_commit env o n tr text tokens Hgen Hne).
    rewrite think_guard_outcome.
    match goal with
    | |- context [compression_check env ?wc] =>
        destruct (compression_check_counts env wc) as (Hc & _)
    end.
    simpl_fields. simpl_fields in Hc. exact Hc.
  - intros [o n tr] message text k appended.
    cbn [self tick] in appended |- *. intros Hgen _ _.
    rewrite (respond_commit env o n tr message text k Hgen).
    rewrite finally_outcome. cbv zeta. rewrite then_ret_world.
    match goal with
    | |- context [compression_check env ?wc] =>
        destruct (compression_check_counts env wc) as (Hc & _)
    end.
    simpl_fields. simpl_fields in Hc. exact Hc.
  - intros [o n tr] seed text tokens appended w'.
    cbn [self tick] in w' |- *.
    intros Hctx Hseed Htools Hat Hcomplete _ _ Hlen Hstrip.
    subst w' appended seed.
    set (appended := context_text o ++ text ++ Lit.nl).
    assert (Hgen : generate_answer env (S n) (think_request o)
                   = Some (text, tokens)).
    { unfold generate_answer. rewrite Hcomplete. reflexivity. }
    assert (Hend : generate_end env (S n) (think_request o) = S (S n)).
    { unfold generate_end. rewrite Hcomplete. reflexivity. }
    assert (Hne : strip text <> []).
    { rewrite Hstrip. destruct text; [discriminate Hlen | discriminate]. }
    assert (H64 : len appended = 64).
    { unfold appended. rewrite !len_app. unfold len.
      rewrite Hseed, Hlen. reflexivity. }
    assert (Htd : tool_definitions o = []).
    { rewrite Htools. apply extract_tool_definitions_short.
      rewrite Hseed. lia. }
    assert (Hgt : len appended > compress_at_chars o) by lia.
    split; [exact H64|].
    unfold new_events.
    rewrite (think_once_commit env o n tr text tokens Hgen Hne).
    rewrite think_guard_outcome.
    rewrite Hend, Hstrip.
    rewrite compression_check_above by exact Hgt.
    match goal with
    | |- context [_compress env ?wc] => set (wc0 := wc)
    end.
    split; [|split].
    + destruct (compress_summary env wc0) as (_ & _ & evs & Htr).
      destruct (_compress env wc0) as [res w1].
      cbn [fst snd self tick trace] in Htr |- *.
      assert (Hin : In (KThought, 64)
                       (logged_lengths (skipn (length tr) (trace w1)))).
      { rewrite Htr. unfold wc0. cbn [trace].
        rewrite <- !app_assoc, skipn_app, skipn_all, Nat.sub_diag.
        cbn [skipn app]. unfold logged_lengths.
        rewrite flat_map_app. apply in_or_app. right.
        cbn [flat_map app log_kind log_context_chars]. left.
        simpl_fields. fold appended. rewrite H64. reflexivity. }
      destruct res as [u|e]; [exact Hin|].
      rewrite skipn_app. unfold logged_lengths. rewrite flat_map_app.
      apply in_or_app. left. exact Hin.
    + destruct (compress_summary env wc0) as (Hc & _ & _).
      simpl_fields. exact Hc.
    + intros summary k Hsum.
      assert (Hans : generate_answer env (tick wc0)
                       (compress_request (counted (self wc0)))
                     = Some (summary, k)).
      { unfold generate_answer. unfold wc0. cbn [tick self].
        change (compress_request _)
          with (request_of o (compress_prompt appended)
                  compress_max_tokens compress_temperature).
        rewrite Hsum. reflexivity. }
      rewrite (compress_success env wc0 summary k Hans).
      * unfold wc0. simpl_fields. rewrite Htd. cbn [app].
        unfold compressed_context. cbn [app].
        split; [reflexivity|].
        rewrite !len_app, len_core_memory, len_continuation.
        split; [lia|]. rewrite H64. lia.
      * unfold wc0. simpl_fields. fold appended. lia.
Qed.

(** An instance: the scenario, with a summary of thirty characters; and a
    short dialog, which stays below the threshold. *)
Lemma threshold_checked_after_append_witness :
  let env := Scenario.long_summary in
  let w := Scenario.started in
  let w' := snd (_think_once env w) in
  compression_count (self w') = 1
  /\ compression_count
       (self (snd (_respond_to_human Scenario.always_hi (Some Scenario.hi) w)))
     = 0
  /\ (len (Scenario.seed3 ++ Scenario.a60 ++ Lit.nl) = 64
      /\ In (KThought, 64) (logged_lengths (new_events (_think_once env) w))
      /\ compression_count (self w') = 0 + 1
      /\ (context_text (self w')
          = Lit.core_memory ++ Scenario.b30 ++ Lit.continuation
          /\ len (context_text (self w')) = 30 + 41
          /\ (len (context_text (self w'))
              <= len (Scenario.seed3 ++ Scenario.a60 ++ Lit.nl)
              <-> 30 <= 23))).
Proof.
  intros env w w'.
  destruct (threshold_checked_after_append env) as (A & _ & C).
  destruct (threshold_checked_after_append Scenario.always_hi)
    as (_ & B & _).
  split; [|split].
  - apply (A w Scenario.a60 12);
      [reflexivity | reflexivity | reflexivity
      | vm_compute; discriminate].
  - apply (B w (Some Scenario.hi) Scenario.hi 2); reflexivity.
  - destruct (C w Scenario.seed3 Scenario.a60 12) as (C1 & C2 & C3 & C4);
      try reflexivity.
    split; [exact C1|]. split; [exact C2|]. split; [exact C3|].
    apply (C4 Scenario.b30 5). reflexivity.
Defined.

(** C4 as stated fails in its scenario.  With the first think call
    answered by sixty ["a"] and the compression call by thirty ["b"], the
    log records a context of 64 after the thought and of 71 after the
    compression that follows in the same turn: the new context is longer
    than the one it replaces.  And sixty characters that end in a newline
    leave a context of 63, not 64. *)
Lemma compression_can_lengthen_context_counterexample :
  let w' := snd (_think_once Scenario.long_summary Scenario.started) in
  let w'' := snd (_think_once Scenario.padded_thought Scenario.started) in
  logged_lengths (trace w') = [(KThought, 64); (KCompress, 71)]
  /\ len (context_text (self w')) = 71
  /\ ~ (len (context_text (self w')) <= 64)
  /\ length Scenario.a59_nl = 60%nat
  /\ logged_lengths (trace w'') = [(KThought, 63); (KCompress, 43)].
Proof.
  vm_compute. repeat split; try reflexivity. intros H. apply H. reflexivity.
Qed.






(** What a dialog turn leaves, by the answer to its request. *)
Lemma respond_facts (env : Env) (message : option str) (w : World) :
  let req := dialog_request (self w) message in
  let r := _respond_to_human env message w in
  thought_count (self (snd r)) = thought_count (self w)
  /\ (exists rest, trace (snd r) = trace w ++ EvPost Completions req :: rest)
  /\ (forall response,
        fst r = Ok response ->
        exists text k,
          generate_answer env (tick w) req = Some (text, k)
          /\ response = strip text)
  /\ (forall text k,
        generate_answer env (tick w) req = Some (text, k) ->
        len ((context_text (self w) ++ injection message)
             ++ strip text ++ Lit.nl) <= compress_at_chars (self w) ->
        fst r = Ok (strip text)).
Proof.
  destruct w as [o n tr]. cbv zeta. cbn [self tick trace].
  destruct (generate_posts_head env n (dialog_request o message))
    as [ps Hps].
  destruct (generate_answer env n (dialog_request o message))
    as [[text k]|] eqn:Hgen.
  - rewrite (respond_commit env o n tr message text k Hgen).
    rewrite finally_outcome. cbv zeta.
    rewrite then_ret_world, then_ret_result.
    match goal with
    | |- context [compression_check env ?wc] =>
        destruct (compression_check_counts env wc) as (_ & Ht);
        destruct (trace_compression_check env (fun _ => True)
                    (fun _ _ _ => I) (fun _ _ => I) wc) as (evs & Htr & _);
        pose proof (compression_check_below env wc) as Hbelow;
        destruct (compression_check env wc) as [res w1]
    end.
    cbn [fst snd self tick trace] in Ht, Htr, Hbelow |- *.
    split; [exact Ht|]. split; [|split].
    + rewrite Htr, Hps. eexists. rewrite <- !app_assoc. reflexivity.
    + intros response Hres. exists text, k. split; [reflexivity|].
      destruct res; [|discriminate]. injection Hres as <-. reflexivity.
    + intros text' k' Heq Hle. injection Heq as <- <-.
      specialize (Hbelow Hle). injection Hbelow as -> _. reflexivity.
  - rewrite (respond_failure env o n tr message Hgen).
    cbn [fst snd self tick trace]. split; [reflexivity|].
    split; [|split].
    + rewrite Hps. eexists. reflexivity.
    + intros response Hres. discriminate.
    + intros text k Heq. discriminate.
Qed.

(** C9, where the code departs from it.  In a loop iteration that finds
    the human-input event set, the first thing the loop does is the dialog
    call for the pending message; nothing the iteration adds to the trace
    is a think call, and [thought_count] does not move; the event is
    cleared.  An iteration that ends normally has stored the stripped
    answer to that call as the response and set the response event, and
    the iteration ends normally when the call is answered, the reply and
    the message can be logged (no lone surrogate) and the context stays
    within the threshold.  But when both endpoints raise on the dialog
    call the message has been consumed and no response is delivered: the
    exception leaves the iteration with the response text and the response
    event as they were. *)
Theorem pending_interjection_served_first (env : Env) (w : World) :
  _human_event (self w) = true ->
  let message := _human_input (self w) in
  let req := dialog_request (self w) message in
  let r := loop_body env w in
  (exists rest,
     new_events (loop_body env) w = EvPost Completions req :: rest)
  /\ Forall (fun e => is_think_post e = false)
            (new_events (loop_body env) w)
  /\ thought_count (self (snd r)) = thought_count (self w)
  /\ _human_event (self (snd r)) = false
  /\ (fst r = Ok tt ->
      exists text k,
        generate_answer env (tick w) req = Some (text, k)
        /\ _response_text (self (snd r)) = Some (strip text)
        /\ _response_event (self (snd r)) = true)
  /\ (forall text k,
        generate_answer env (tick w) req = Some (text, k) ->
        encodable (format_message message) = true ->
        encodable (strip text) = true ->
        len ((context_text (self w) ++ injection message)
             ++ strip text ++ Lit.nl) <= compress_at_chars (self w) ->
        fst r = Ok tt)
  /\ (generate_answer env (tick w) req = None ->
      fst r = Raise RequestError
      /\ _response_text (self (snd r)) = _response_text (self w)
      /\ _response_event (self (snd r)) = _response_event (self w)).
Proof.
  intros Hev message req r.
  set (w0 := mkWorld (set_human_event false (self w)) (tick w) (trace w)).
  pose proof (loop_body_dialog env w Hev) as Hbody.
  cbv zeta in Hbody. fold w0 in Hbody. fold message in Hbody.
  destruct (respond_facts env message w0) as (Ht & (rest & Htr) & Hok & Hlive).
  destruct (handoff_respond env message w0) as (_ & _ & He & _ & _).
  pose proof (trace_respond env (fun e => is_think_post e = false) message
                (fun _ _ _ => eq_refl) (fun _ _ => eq_refl)
                (fun _ _ _ => eq_refl) (fun _ _ => eq_refl) w0) as Hno.
  cbn [self tick trace w0] in Ht, Htr, Hok, Hlive, He.
  change (dialog_request (set_human_event false (self w)) message)
    with req in Htr, Hok, Hlive.
  assert (Htrace : trace (snd r) = trace (snd (_respond_to_human env message w0))).
  { unfold r. rewrite Hbody.
    destruct (fst (_respond_to_human env message w0)); reflexivity. }
  split; [|split; [|split; [|split; [|split; [|split]]]]].
  - exists rest. apply new_events_app. fold r. rewrite Htrace. exact Htr.
  - apply new_events_extends. fold r.
    destruct Hno as (evs & Hevs & Hall). exists evs. split; [|exact Hall].
    rewrite Htrace. exact Hevs.
  - unfold r. rewrite Hbody.
    destruct (fst (_respond_to_human env message w0)); exact Ht.
  - unfold r. rewrite Hbody.
    destruct (fst (_respond_to_human env message w0)); exact He.
  - unfold r. rewrite Hbody.
    destruct (fst (_respond_to_human env message w0)) as [response|e] eqn:Hr;
      [|discriminate].
    intros _. destruct (Hok response eq_refl) as (text & k & Hgen & ->).
    exists text, k. repeat split. exact Hgen.
  - intros text k Hgen _ _ Hle. unfold r. rewrite Hbody.
    rewrite (Hlive text k Hgen Hle). reflexivity.
  - intros Hfail. unfold r. rewrite Hbody. unfold w0.
    rewrite (respond_failure env (set_human_event false (self w)) (tick w)
               (trace w) message Hfail).
    cbn [fst snd self]. simpl_fields. repeat split.
Qed.

(** An instance: ["hi"] is pending; the dialog call is answered ["hi"],
    or the backend is unreachable. *)
Lemma pending_interjection_served_first_witness :
  let w := Scenario.interjected in
  let req := dialog_request (self w) (Some Scenario.hi) in
  let r := loop_body Scenario.always_hi w in
  let r' := loop_body Scenario.unreachable w in
  ((exists rest,
      new_events (loop_body Scenario.always_hi) w
      = EvPost Completions req :: rest)
   /\ Forall (fun e => is_think_post e = false)
             (new_events (loop_body Scenario.always_hi) w)
   /\ thought_count (self (snd r)) = 0
   /\ _human_event (self (snd r)) = false
   /\ fst r = Ok tt
   /\ _response_text (self (snd r)) = Some Scenario.hi
   /\ _response_event (self (snd r)) = true)
  /\ (_human_event (self (snd r')) = false
      /\ fst r' = Raise RequestError
      /\ _response_text (self (snd r')) = None
      /\ _response_event (self (snd r')) = false).
Proof.
  intros w req r r'.
  destruct (pending_interjection_served_first Scenario.always_hi w eq_refl)
    as (A & B & C & D & _ & F & _).
  destruct (pending_interjection_served_first Scenario.unreachable w eq_refl)
    as (_ & _ & _ & D' & _ & _ & G).
  split.
  - split; [exact A|]. split; [exact B|]. split; [exact C|].
    split; [exact D|]. split; [|split; reflexivity].
    apply (F Scenario.hi 2);
      [reflexivity | reflexivity | reflexivity | vm_compute; discriminate].
  - split; [exact D'|]. apply G. reflexivity.
Defined.

(** C1, where the code departs from it.  A think turn lets no exception
    out, whatever the backend does: its [except] clause catches the
    failure of the think call and of the compression inside the turn.  A
    dialog turn has no [except] clause: when both endpoints raise on the
    dialog call, or on the call of the compression that follows the
    reply, the exception leaves [_respond_to_human] and the loop, which
    ends there with [alive] still true and no response handed over. *)
Theorem dialog_failure_ends_loop (env : Env) :
  (forall w, fst (_think_once env w) = Ok tt)
  /\ (forall w n,
        arrivals env (tick w) = [] ->
        alive (self w) = true ->
        _human_event (self w) = true ->
        generate_answer env (S (tick w))
          (dialog_request (self w) (_human_input (self w))) = None ->
        let r := _loop env (S n) w in
        fst r = Raise RequestError
        /\ alive (self (snd r)) = true
        /\ _response_event (self (snd r)) = _response_event (self w)
        /\ _response_text (self (snd r)) = _response_text (self w))
  /\ (forall w n text k,
        let message := _human_input (self w) in
        let req := dialog_request (self w) message in
        let appended :=
          (context_text (self w) ++ injection message)
          ++ strip text ++ Lit.nl in
        arrivals env (tick w) = [] ->
        alive (self w) = true ->
        _human_event (self w) = true ->
        generate_answer env (S (tick w)) req = Some (text, k) ->
        len appended > compress_at_chars (self w) ->
        generate_answer env (generate_end env (S (tick w)) req)
          (request_of (self w) (compress_prompt appended)
             compress_max_tokens compress_temperature) = None ->
        let r := _loop env (S n) w in
        fst r = Raise RequestError
        /\ alive (self (snd r)) = true
        /\ _response_event (self (snd r)) = _response_event (self w)
        /\ _response_text (self (snd r)) = _response_text (self w)).
Proof.
  split; [|split].
  - apply think_once_returns.
  - intros [o n0 tr] n. cbv zeta. cbn [self tick].
    intros Harr Halive Hev Hfail.
    rewrite loop_step by assumption. cbn [self tick trace].
    rewrite loop_body_dialog by exact Hev. cbn [self tick trace].
    rewrite (respond_failure env (set_human_event false o) (S n0) tr
               (_human_input o) Hfail).
    cbn [fst snd self]. simpl_fields. repeat split. exact Halive.
  - intros [o n0 tr] n text k. cbv zeta. cbn [self tick].
    intros Harr Halive Hev Hgen Hgt Hfail.
    rewrite loop_step by assumption. cbn [self tick trace].
    rewrite loop_body_dialog by exact Hev. cbn [self tick trace].
    rewrite (respond_commit env (set_human_event false o) (S n0) tr
               (_human_input o) text k Hgen).
    rewrite finally_outcome. cbv zeta.
    rewrite then_ret_world, then_ret_result.
    rewrite compression_check_above by exact Hgt.
    rewrite compress_failure by exact Hfail.
    cbn [fst snd self]. simpl_fields. repeat split. exact Halive.
Qed.

(** An instance: ["hi"] is pending; the backend is unreachable, or answers
    the dialog call and raises on the compression call. *)
Lemma dialog_failure_ends_loop_witness :
  let w := Scenario.interjected in
  fst (_think_once Scenario.unreachable w) = Ok tt
  /\ (let r := _loop Scenario.unreachable 3 w in
      fst r = Raise RequestError
      /\ alive (self (snd r)) = true
      /\ _response_event (self (snd r)) = false
      /\ _response_text (self (snd r)) = None)
  /\ (let r := _loop Scenario.think_then_fail 3 w in
      fst r = Raise RequestError
      /\ alive (self (snd r)) = true
      /\ _response_event (self (snd r)) = false
      /\ _response_text (self (snd r)) = None).
Proof.
  intros w.
  destruct (dialog_failure_ends_loop Scenario.unreachable) as (A & B & _).
  split; [apply A|]. split.
  - apply (B w 2%nat); reflexivity.
  - destruct (dialog_failure_ends_loop Scenario.think_then_fail)
      as (_ & _ & C).
    apply (C w 2%nat Scenario.a60 12); reflexivity.
Defined.

(** C2, where the code departs from it.  [speak] always returns a value
    once its wait is over, but what it returns does not tell the cases
    apart: (1) when no reply arrives in time and an earlier submission was
    answered, the caller receives that earlier reply, not the sentinel;
    (2) the sentinel comes only when nothing non-empty was ever stored;
    (3) and it also comes when the reply to this very submission was
    delivered and is empty. *)
Theorem speak_returns_stale_or_conflated
    (env : Env) (w : World) (message : str) :
  (forall c r,
     _response_text (self w) = Some (c :: r) ->
     fst (speak env message 0 w) = Ok (c :: r))
  /\ (_response_text (self w) = None ->
      fst (speak env message 0 w) = Ok Lit.no_response)
  /\ (forall text k,
        alive (self w) = true ->
        arrivals env (tick w) = [] ->
        generate_answer env (S (tick w))
          (dialog_request (self w) (Some message)) = Some (text, k) ->
        strip text = [] ->
        len ((context_text (self w) ++ injection (Some message)) ++ Lit.nl)
          <= compress_at_chars (self w) ->
        let r := speak env message 1 w in
        fst r = Ok Lit.no_response
        /\ _response_text (self (snd r)) = Some []
        /\ _response_event (self (snd r)) = true).
Proof.
  destruct w as [o n tr]. cbn [self tick].
  split; [|split].
  - intros c r H. unfold speak, in_loop_thread. cbn [_loop].
    unfold_monad. unfold speak_result. cbn [apply_external]. simpl_fields.
    rewrite H. reflexivity.
  - intros H. unfold speak, in_loop_thread. cbn [_loop].
    unfold_monad. unfold speak_result. cbn [apply_external]. simpl_fields.
    rewrite H. reflexivity.
  - intros text k Halive Harr Hgen Hstrip Hle. cbv zeta.
    remember (speak env message 1 (mkWorld o n tr)) as X eqn:HX.
    unfold speak in HX. unfold bind at 1 in HX. unfold modify at 1 in HX.
    cbn [self tick trace apply_external] in HX.
    unfold bind at 1 in HX. unfold in_loop_thread in HX.
    rewrite loop_step in HX by (simpl_fields; assumption).
    cbn [self tick trace] in HX.
    rewrite loop_body_dialog in HX by reflexivity.
    cbn [self tick trace] in HX. simpl_fields in HX.
    match type of HX with
    | context [_respond_to_human env ?m (mkWorld ?o' ?n' ?tr')] =>
        rewrite (respond_commit env o' n' tr' m text k Hgen) in HX
    end.
    rewrite finally_outcome in HX. cbv zeta in HX.
    rewrite then_ret_world, then_ret_result in HX.
    rewrite compression_check_below in HX
      by (simpl_fields; rewrite Hstrip; exact Hle).
    rewrite Hstrip in HX. cbn [fst snd _loop] in HX.
    unfold bind, get_self, ret in HX. cbn [fst snd self tick trace] in HX.
    unfold speak_result in HX. simpl_fields in HX.
    subst X. simpl_fields. repeat split.
Qed.

(** An instance: a first submission answered ["hi"], a second one left
    unanswered, and a submission answered with blanks. *)
Lemma speak_returns_stale_or_conflated_witness :
  let env := Scenario.always_hi in
  let w := Scenario.started in
  let answered := snd (speak env Scenario.hi 1 w) in
  fst (speak env Scenario.hi 1 w) = Ok Scenario.hi
  /\ fst (speak Scenario.unreachable Scenario.b30 0 answered)
     = Ok Scenario.hi
  /\ fst (speak Scenario.unreachable Scenario.hi 0 w) = Ok Lit.no_response
  /\ (let r := speak Scenario.always_blank Scenario.hi 1 w in
      fst r = Ok Lit.no_response
      /\ _response_text (self (snd r)) = Some []
      /\ _response_event (self (snd r)) = true).
Proof.
  intros env w answered.
  split; [reflexivity|].
  destruct (speak_returns_stale_or_conflated Scenario.unreachable answered
              Scenario.b30) as (A & _ & _).
  destruct (speak_returns_stale_or_conflated Scenario.unreachable w
              Scenario.hi) as (_ & B & _).
  destruct (speak_returns_stale_or_conflated Scenario.always_blank w
              Scenario.hi) as (_ & _ & C).
  split; [apply (A 104%N [105%N]); reflexivity|].
  split; [apply B; reflexivity|].
  apply (C Scenario.blanks 3); try reflexivity.
  vm_compute. discriminate.
Defined.

(** C10. [max_context_chars] is stored by [__init__] and read by nothing.
    Two sessions that differ only in its value, run against the same
    backend, clock and callers for the same number of iterations, end with
    the same loop status, the same trace (every POST, log line, pause and
    wait), the same tick, and objects that agree on every field but that
    one, hence the same context, the same status snapshot and the same
    answer to a subsequent [speak]. *)
Theorem max_context_chars_has_no_effect
    (env : Env) (ti : Q) (m1 m2 ca : Z) (sn : str) (cs : option str)
    (id : str) (n : nat) (message : str) (turns : nat) :
  let run m := session env id n (mkWorld (__init__ ti m ca sn cs) O []) in
  let w1 := snd (run m1) in
  let w2 := snd (run m2) in
  fst (run m1) = fst (run m2)
  /\ trace w1 = trace w2
  /\ tick w1 = tick w2
  /\ self w2 = set_max_context_chars m2 (self w1)
  /\ context_text (self w1) = context_text (self w2)
  /\ status (self w1) = status (self w2)
  /\ fst (speak env message turns w1) = fst (speak env message turns w2)
  /\ trace (snd (speak env message turns w1))
     = trace (snd (speak env message turns w2)).
Proof.
  intros run w1 w2.
  assert (Hrun : run m2 = (fst (run m1), with_max_context m2 w1)).
  { exact (oblivious_session env id n m2
             (mkWorld (__init__ ti m1 ca sn cs) O [])). }
  assert (Hw : w2 = with_max_context m2 w1).
  { unfold w2. rewrite Hrun. reflexivity. }
  rewrite Hw, Hrun. rewrite (oblivious_speak env message turns m2 w1).
  cbn [fst snd]. unfold with_max_context. cbn [self tick trace].
  repeat split.
Qed.

(** ** Further properties: strings *)

Lemma starts_with_refl (a : str) : starts_with a a = true.
Proof.
  induction a as [|c a IH]; [reflexivity|].
  cbn [starts_with]. rewrite N.eqb_refl. exact IH.
Qed.

Lemma starts_with_same_length (a b : str) :
  length a = length b -> starts_with a b = true -> a = b.
Proof.
  revert b. induction a as [|c a IH]; intros [|d b] Hl H;
    try discriminate; [reflexivity|].
  cbn [starts_with] in H. apply andb_prop in H. destruct H as [Hc Hr].
  apply N.eqb_eq in Hc. subst d. f_equal. apply IH; [|exact Hr].
  simpl in Hl. lia.
Qed.

(** [str_eqb] is equality of strings. *)
Lemma str_eqb_eq (a b : str) : str_eqb a b = true <-> a = b.
Proof.
  unfold str_eqb. split.
  - intros H. apply andb_prop in H. destruct H as [Hl Hs].
    apply Nat.eqb_eq in Hl. apply starts_with_same_length; assumption.
  - intros ->. rewrite Nat.eqb_refl, starts_with_refl. reflexivity.
Qed.

Lemma str_eqb_neq (a b : str) : a <> b -> str_eqb a b = false.
Proof.
  intros H. destruct (str_eqb a b) eqn:E; [|reflexivity].
  apply str_eqb_eq in E. contradiction.
Qed.

(** [lstrip] removes a run of white space from the front, and nothing
    else. *)
Lemma lstrip_split (s : str) :
  exists ws, s = ws ++ lstrip s /\ forallb isspace ws = true.
Proof.
  induction s as [|c s (ws & Hs & Hw)].
  - exists []. split; reflexivity.
  - cbn [lstrip]. destruct (isspace c) eqn:Ec.
    + exists (c :: ws). split.
      * cbn [app]. f_equal. exact Hs.
      * cbn [forallb]. rewrite Ec, Hw. reflexivity.
    + exists []. split; reflexivity.
Qed.

Lemma lstrip_head (s : str) :
  match lstrip s with
  | [] => True
  | c :: _ => isspace c = false
  end.
Proof.
  induction s as [|c s IH]; [exact I|].
  cbn [lstrip]. destruct (isspace c) eqn:Ec; [exact IH | exact Ec].
Qed.

Lemma lstrip_fixed (c : N) (s : str) :
  isspace c = false -> lstrip (c :: s) = c :: s.
Proof. intros H. cbn [lstrip]. rewrite H. reflexivity. Qed.

Lemma lstrip_idempotent (s : str) : lstrip (lstrip s) = lstrip s.
Proof.
  pose proof (lstrip_head s) as H. destruct (lstrip s) as [|c r];
    [reflexivity | apply lstrip_fixed; exact H].
Qed.

(** [rstrip] removes a run of white space from the back, and nothing
    else. *)
Lemma rstrip_split (s : str) :
  exists ws, s = rstrip s ++ ws /\ forallb isspace ws = true.
Proof.
  unfold rstrip. destruct (lstrip_split (rev s)) as (ws & Hs & Hw).
  exists (rev ws). split.
  - rewrite <- rev_app_distr, <- Hs, rev_involutive. reflexivity.
  - rewrite forallb_forall in *. intros x Hx. apply Hw.
    apply in_rev. exact Hx.
Qed.

Lemma rstrip_idempotent (s : str) : rstrip (rstrip s) = rstrip s.
Proof.
  unfold rstrip. rewrite rev_involutive, lstrip_idempotent. reflexivity.
Qed.

Lemma rstrip_last (s : str) (c : N) :
  isspace c = false -> rstrip (s ++ [c]) = s ++ [c].
Proof.
  intros H. unfold rstrip. rewrite rev_app_distr. cbn [rev app].
  rewrite lstrip_fixed by exact H.
  cbn [rev]. rewrite rev_involutive. reflexivity.
Qed.

(** A string that [rstrip] leaves non-empty keeps its first character. *)
Lemma rstrip_head (c : N) (s : str) :
  rstrip (c :: s) = [] \/ exists r, rstrip (c :: s) = c :: r.
Proof.
  destruct (rstrip_split (c :: s)) as (ws & Hs & _).
  destruct (rstrip (c :: s)) as [|d r]; [left; reflexivity|].
  right. exists r. cbn [app] in Hs. injection Hs as -> _. reflexivity.
Qed.

(** [strip] removes white space at both ends, and nothing else: the
    result is a block of the string between two runs of white space, and
    it neither begins nor ends with white space. *)
Lemma strip_split (s : str) :
  exists front back,
    s = front ++ strip s ++ back
    /\ forallb isspace front = true /\ forallb isspace back = true.
Proof.
  destruct (lstrip_split s) as (front & Hs & Hf).
  destruct (rstrip_split (lstrip s)) as (back & Hb & Hk).
  exists front, back. unfold strip. split; [|split; assumption].
  rewrite <- Hb. exact Hs.
Qed.

Lemma strip_idempotent (s : str) : strip (strip s) = strip s.
Proof.
  unfold strip. pose proof (lstrip_head s) as Hh.
  destruct (lstrip s) as [|c r] eqn:E; [reflexivity|].
  destruct (rstrip_head c r) as [H0 | (r' & Hr)].
  - rewrite H0. reflexivity.
  - rewrite Hr, lstrip_fixed by exact Hh. rewrite <- Hr.
    apply rstrip_idempotent.
Qed.

Lemma strip_head (s : str) :
  match strip s with
  | [] => True
  | c :: _ => isspace c = false
  end.
Proof.
  unfold strip. pose proof (lstrip_head s) as Hh.
  destruct (lstrip s) as [|c r]; [exact I|].
  destruct (rstrip_head c r) as [H0 | (r' & Hr)].
  - rewrite H0. exact I.
  - rewrite Hr. exact Hh.
Qed.

Lemma strip_last (s : str) :
  match rev (strip s) with
  | [] => True
  | c :: _ => isspace c = false
  end.
Proof.
  unfold strip, rstrip. rewrite rev_involutive. apply lstrip_head.
Qed.

Lemma len_strip (s : str) : len (strip s) <= len s.
Proof.
  destruct (strip_split s) as (front & back & Hs & _).
  rewrite Hs at 2. rewrite !len_app.
  pose proof (len_nonneg front). pose proof (len_nonneg back). lia.
Qed.

(** A string that begins and ends with characters that are not white
    space is its own [strip]. *)
Lemma strip_fixed (c d : N) (s : str) :
  isspace c = false -> isspace d = false ->
  strip (c :: s ++ [d]) = c :: s ++ [d].
Proof.
  intros Hc Hd. unfold strip. rewrite lstrip_fixed by exact Hc.
  change (c :: s ++ [d]) with ((c :: s) ++ [d]).
  apply rstrip_last. exact Hd.
Qed.

(** ** Further properties: the seed and its tool section *)

(** X1. The seed [__init__] keeps.  A non-empty custom seed is taken as it
    is.  Without one (absent, or empty), the name selects the text: a name
    that is not exactly one of the six keys other than ["default"] gives
    the default text, and each of the six gives its own. *)
Theorem seed_selection
    (ti : Q) (mc ca : Z) (sn : str) (cs : option str) :
  (forall c s, cs = Some (c :: s) ->
     seed_text (__init__ ti mc ca sn cs) = c :: s)
  /\ (truthy cs = false ->
      seed_text (__init__ ti mc ca sn cs) = SEEDS_get sn)
  /\ (~ In sn seed_keys -> SEEDS_get sn = SEED_default)
  /\ map SEEDS_get seed_keys
     = [SEED_koan; SEED_emptiness; SEED_poetic; SEED_fire; SEED_observer;
        SEED_isbe].
Proof.
  split; [|split; [|split]].
  - intros c s ->. reflexivity.
  - destruct cs as [[|c s]|]; [reflexivity | discriminate | reflexivity].
  - intros H. unfold SEEDS_get.
    repeat match goal with
    | |- context [str_eqb sn ?k] =>
        rewrite (str_eqb_neq sn k)
          by (intros ->; apply H; cbn [seed_keys In]; tauto)
    end.
    reflexivity.
  - vm_compute. reflexivity.
Qed.

(** An instance: the name ["Koan"], with a capital, is no key. *)
Lemma seed_selection_witness :
  seed_text (__init__ 0 6000 5000 [] (Some Scenario.hi)) = Scenario.hi
  /\ seed_text (__init__ 0 6000 5000 [75; 111; 97; 110]%N (Some []))
     = SEEDS_get [75; 111; 97; 110]%N
  /\ SEEDS_get [75; 111; 97; 110]%N = SEED_default.
Proof.
  destruct (seed_selection 0 6000 5000 [] (Some Scenario.hi))
    as (A & _ & _ & _).
  destruct (seed_selection 0 6000 5000 [75; 111; 97; 110]%N (Some []))
    as (_ & B & C & _).
  split; [apply (A 104%N [105%N]); reflexivity|].
  split; [apply B; reflexivity|].
  apply C. cbn [seed_keys In]. intros H.
  repeat (destruct H as [H|H]; [discriminate H|]). exact H.
Defined.

(** Without a custom seed the seed is a built-in text, not empty and
    without a tool section. *)
Lemma builtin_seed_facts
    (ti : Q) (mc ca : Z) (sn : str) (cs : option str) :
  truthy cs = false ->
  let o := __init__ ti mc ca sn cs in
  In (seed_text o) seed_texts
  /\ seed_text o <> []
  /\ tool_definitions o = [].
Proof.
  intros Hcs o.
  assert (Ho : o = __init__ ti mc ca sn None).
  { unfold o. destruct cs as [[|c s]|]; [reflexivity | discriminate
                                          | reflexivity]. }
  rewrite Ho. unfold __init__.
  cbn [seed_text tool_definitions]. unfold SEEDS_get.
  repeat match goal with
  | |- context [if str_eqb sn ?k then _ else _] => destruct (str_eqb sn k)
  end;
  (split; [cbn [seed_texts In]; tauto
          | split; [discriminate | vm_compute; reflexivity]]).
Qed.


(** X2. None of the seven built-in seeds mentions a tool: without a custom
    seed, whatever the seed name, the seed is one of the seven texts, it
    is not empty, and [tool_definitions] is empty, so a compression puts
    nothing before the core-memory tag. *)
Theorem builtin_seeds_carry_no_tools
    (ti : Q) (mc ca : Z) (sn : str) (cs : option str) :
  truthy cs = false ->
  let o := __init__ ti mc ca sn cs in
  In (seed_text o) seed_texts
  /\ seed_text o <> []
  /\ tool_definitions o = [].
Proof. exact (builtin_seed_facts ti mc ca sn cs). Qed.

(** An instance: the seed ["isbe"]. *)
Lemma builtin_seeds_carry_no_tools_witness :
  let o := __init__ 0 6000 5000 [105; 115; 98; 101]%N None in
  In (seed_text o) seed_texts /\ seed_text o <> [] /\ tool_definitions o = [].
Proof.
  exact (builtin_seeds_carry_no_tools 0 6000 5000 [105; 115; 98; 101]%N
           None eq_refl).
Defined.

(** Once inside the section, the scan takes lines up to and including the
    first that closes it. *)
Lemma scan_inside (lines : list str) :
  scan_tool_section true lines = take_through closes_section lines.
Proof.
  induction lines as [|l rest IH]; [reflexivity|].
  cbn [scan_tool_section take_through]. fold (closes_section l).
  destruct (contains Lit.available_tools l); cbv zeta; rewrite IH;
    reflexivity.
Qed.

(** The scan, as a skip followed by a take. *)
Lemma scan_take_drop (lines : list str) :
  scan_tool_section false lines
  = take_through closes_section (drop_until opens_section lines).
Proof.
  induction lines as [|l rest IH]; [reflexivity|].
  cbn [scan_tool_section drop_until]. unfold opens_section at 1.
  destruct (contains Lit.available_tools l) eqn:E; cbv zeta.
  - cbn [take_through]. fold (closes_section l).
    rewrite scan_inside. reflexivity.
  - exact IH.
Qed.

(** X3. The scan of [__init__] for the tool section: it skips the lines
    before the first one that contains ["使用可能なツール"], and from that
    line on takes the lines up to and including the first that contains
    ["躊躇せず"] or ["許可は不要"] (or up to the end of the seed when none
    does).  A closing line before the opening one is not seen. *)
Theorem tool_section_scan (lines : list str) :
  scan_tool_section false lines
  = take_through closes_section (drop_until opens_section lines).
Proof. exact (scan_take_drop lines). Qed.

(** X4. A custom seed that opens with [TOOL_HEADER] gives the same
    [tool_definitions] whatever follows the header: the header up to its
    last sentence and one blank line, 189 characters, without the ["---"]
    rule. *)
Theorem tool_header_is_extracted (body : str) (ti : Q) (mc ca : Z)
    (sn : str) :
  extract_tool_definitions (TOOL_HEADER ++ body) = tool_block
  /\ tool_definitions (__init__ ti mc ca sn (Some (TOOL_HEADER ++ body)))
     = tool_block
  /\ len tool_block = 189.
Proof.
  assert (H : extract_tool_definitions (TOOL_HEADER ++ body) = tool_block).
  { vm_compute. reflexivity. }
  split; [exact H|]. split; [|reflexivity].
  unfold __init__. cbn [tool_definitions].
  change (TOOL_HEADER ++ body) with (12304%N :: tl TOOL_HEADER ++ body).
  cbv iota. exact H.
Qed.

Lemma blank_no_ink (s : str) : forallb isspace s = true -> has_ink s = false.
Proof.
  unfold has_ink. induction s as [|c s IH]; [reflexivity|].
  cbn [forallb existsb]. intros H. apply andb_prop in H.
  destruct H as [Hc Hs]. rewrite Hc, IH by exact Hs. reflexivity.
Qed.

Lemma has_ink_app (a b : str) : has_ink (a ++ b) = has_ink a || has_ink b.
Proof. apply existsb_app. Qed.

(** A string with ink is not stripped to nothing. *)
Lemma strip_ink (s : str) : has_ink s = true -> strip s <> [].
Proof.
  intros H E. destruct (strip_split s) as (front & back & Hs & Hf & Hb).
  rewrite E in Hs. cbn [app] in Hs. rewrite Hs, has_ink_app in H.
  rewrite (blank_no_ink _ Hf), (blank_no_ink _ Hb) in H. discriminate.
Qed.

Lemma starts_with_ink (c : N) (p s : str) :
  isspace c = false -> starts_with (c :: p) s = true -> has_ink s = true.
Proof.
  intros Hc H. destruct s as [|d s]; [discriminate|].
  cbn [starts_with] in H. apply andb_prop in H. destruct H as [Hd _].
  apply N.eqb_eq in Hd. subst d. unfold has_ink. cbn [existsb].
  rewrite Hc. reflexivity.
Qed.

Lemma contains_ink (c : N) (p s : str) :
  isspace c = false -> contains (c :: p) s = true -> has_ink s = true.
Proof.
  intros Hc. induction s as [|d s IH]; intros H.
  - cbn in H. discriminate.
  - cbn [contains] in H. apply orb_prop in H. destruct H as [H|H].
    + exact (starts_with_ink c p _ Hc H).
    + unfold has_ink. cbn [existsb]. fold (has_ink s).
      rewrite (IH H). apply orb_true_r.
Qed.

Lemma join_lines_ink (l : str) (rest : list str) :
  has_ink l = true -> has_ink (join_lines (l :: rest)) = true.
Proof.
  intros H. destruct rest as [|l' rest]; [exact H|].
  change (join_lines (l :: l' :: rest))
    with (l ++ [10%N] ++ join_lines (l' :: rest)).
  rewrite has_ink_app, H. reflexivity.
Qed.

Lemma drop_until_head (p : str -> bool) (lines : list str) :
  match drop_until p lines with
  | [] => True
  | l :: _ => p l = true
  end.
Proof.
  induction lines as [|l rest IH]; [exact I|].
  cbn [drop_until]. destruct (p l) eqn:E; [exact E | exact IH].
Qed.

(** The first line the scan collects is the one that opens the section. *)
Lemma scan_head (lines : list str) :
  match scan_tool_section false lines with
  | [] => True
  | l :: _ => opens_section l = true
  end.
Proof.
  rewrite scan_take_drop.
  pose proof (drop_until_head opens_section lines) as H.
  destruct (drop_until opens_section lines) as [|l rest]; [exact I|].
  exact H.
Qed.

(** X5. The shape of [tool_definitions].  It is empty when the seed does
    not contain ["TOOL:"].  When it is not empty it is a block followed by
    one blank line, and the block is not empty and has no white space at
    either end: the core-memory tag that a compression puts after it
    starts a paragraph of its own. *)
Theorem tool_definitions_shape (seed : str) :
  (contains Lit.tool_colon seed = false -> extract_tool_definitions seed = [])
  /\ (extract_tool_definitions seed = []
      \/ exists block,
           extract_tool_definitions seed = block ++ Lit.nl ++ Lit.nl
           /\ block <> [] /\ strip block = block).
Proof.
  split.
  - intros H. unfold extract_tool_definitions. rewrite H. reflexivity.
  - unfold extract_tool_definitions.
    destruct (contains Lit.tool_colon seed); [|left; reflexivity].
    cbv zeta. pose proof (scan_head (split_lines seed)) as Hh.
    destruct (scan_tool_section false (split_lines seed)) as [|l rest].
    + destruct (filter _ (split_lines seed)) as [|t ts];
        [left; reflexivity|].
      right.
      exists (Lit.fallback_head ++ strip (join_lines (t :: ts))
              ++ removelast (removelast Lit.fallback_tail)).
      split; [|split].
      * rewrite <- !app_assoc. reflexivity.
      * discriminate.
      * replace (Lit.fallback_head ++ strip (join_lines (t :: ts))
                 ++ removelast (removelast Lit.fallback_tail))
          with (12304%N
                :: (tl Lit.fallback_head ++ strip (join_lines (t :: ts))
                    ++ removelast (removelast (removelast Lit.fallback_tail)))
                   ++ [12290%N])
          by (rewrite <- !app_assoc; reflexivity).
        apply strip_fixed; reflexivity.
    + right. exists (strip (join_lines (l :: rest))).
      split; [reflexivity|]. split; [|apply strip_idempotent].
      apply strip_ink. apply join_lines_ink.
      apply (contains_ink 20351%N (tl Lit.available_tools)); [reflexivity|].
      exact Hh.
Qed.

Lemma tool_definitions_shape_witness :
  extract_tool_definitions SEED_default = []
  /\ (extract_tool_definitions Scenario.seed_with_tools = []
      \/ exists block,
           extract_tool_definitions Scenario.seed_with_tools
           = block ++ Lit.nl ++ Lit.nl
           /\ block <> [] /\ strip block = block).
Proof.
  split.
  - apply (proj1 (tool_definitions_shape SEED_default)). reflexivity.
  - apply (proj2 (tool_definitions_shape Scenario.seed_with_tools)).
Defined.

(** ** Further properties: what every turn keeps *)

(** What the other threads did is applied in order, and takes one tick. *)
Lemma externals_outcome (env : Env) (w : World) :
  externals env w =
  (Ok tt,
   mkWorld (fold_left (fun o x => apply_external x o)
              (arrivals env (tick w)) (self w))
           (S (tick w)) (trace w)).
Proof. reflexivity. Qed.

(** One iteration of [_loop], whatever the other threads did. *)
Lemma loop_unfold (env : Env) (n : nat) (w : World) :
  _loop env (S n) w =
  (let w1 := snd (externals env w) in
   if alive (self w1)
   then match fst (loop_body env w1) with
        | Ok _ => _loop env n (snd (loop_body env w1))
        | Raise e => (Raise e, snd (loop_body env w1))
        end
   else (Ok Exited, w1)).
Proof.
  cbn [_loop]. unfold bind at 1. rewrite externals_outcome.
  cbn [snd]. unfold bind at 1. unfold get_self at 1. cbn [self].
  destruct (alive _); [|reflexivity].
  unfold bind. destruct (loop_body env _) as [[[]|e] w2]; reflexivity.
Qed.

(** X6. [thinking] is false again after every turn and every loop
    iteration, whatever the backend did: also when the dialog turn lets
    its exception out. *)
Theorem thinking_reset_after_turn
    (env : Env) (w : World) (message : option str) :
  thinking (self (snd (_think_once env w))) = false
  /\ thinking (self (snd (_respond_to_human env message w))) = false
  /\ thinking (self (snd (loop_body env w))) = false.
Proof.
  assert (T : forall w, thinking (self (snd (_think_once env w))) = false).
  { intros w0. unfold _think_once. unfold_monad.
    rewrite think_guard_outcome. reflexivity. }
  assert (D : forall m w,
            thinking (self (snd (_respond_to_human env m w))) = false).
  { intros m w0. unfold _respond_to_human. unfold bind at 1.
    unfold modify at 1. rewrite finally_outcome. reflexivity. }
  split; [apply T|]. split; [apply D|].
  destruct (_human_event (self w)) eqn:Hev.
  - rewrite loop_body_dialog by exact Hev. cbv zeta.
    match goal with
    | |- context [_respond_to_human env ?m ?w0] =>
        pose proof (D m w0) as Hd;
        destruct (_respond_to_human env m w0) as [[r|e] w1]
    end; cbn [fst snd self] in Hd |- *; simpl_fields; exact Hd.
  - rewrite loop_body_think by exact Hev. cbv zeta. cbn [snd self].
    apply T.
Qed.

Lemma len_zero_nil (s : str) : len s = 0 -> s = [].
Proof. unfold len. destruct s; [reflexivity | discriminate]. Qed.






(** X8. [_compress] on an empty context (as before [load]) when the
    backend answers: the context is replaced, the counter has moved, and
    the division of the new length by the old one raises before the log
    line is written. *)
Theorem compress_empty_context_divides_by_zero
    (env : Env) (w : World) (summary : str) (k : Z) :
  context_text (self w) = [] ->
  generate_answer env (tick w) (compress_request (counted (self w)))
    = Some (summary, k) ->
  let w' := snd (_compress env w) in
  fst (_compress env w) = Raise ZeroDivisionError
  /\ context_text (self w')
     = compressed_context (tool_definitions (self w)) (strip summary)
  /\ compression_count (self w') = compression_count (self w) + 1
  /\ compress_entries (new_events (_compress env) w) = [].
Proof.
  intros Hctx Hgen. cbv zeta. unfold new_events.
  rewrite compress_outcome, Hgen. cbv zeta. rewrite Hctx.
  cbn [len length Z.of_nat Z.eqb fst snd self trace]. simpl_fields.
  repeat split.
  rewrite skipn_app, skipn_all, Nat.sub_diag. cbn [skipn app].
  unfold generate_posts. destruct (complete env _ _); reflexivity.
Qed.

Lemma compress_empty_context_divides_by_zero_witness :
  let w := mkWorld Scenario.isbe0 O [] in
  let w' := snd (_compress Scenario.always_hi w) in
  fst (_compress Scenario.always_hi w) = Raise ZeroDivisionError
  /\ context_text (self w') = compressed_context [] Scenario.hi
  /\ compression_count (self w') = 0 + 1
  /\ compress_entries (new_events (_compress Scenario.always_hi) w) = [].
Proof.
  exact (compress_empty_context_divides_by_zero Scenario.always_hi
           (mkWorld Scenario.isbe0 O []) Scenario.hi 2 eq_refl eq_refl).
Defined.

(** *** The counters and the log *)

Lemma thought_entries_app (a b : list Event) :
  thought_entries (a ++ b) = thought_entries a ++ thought_entries b.
Proof. apply flat_map_app. Qed.

Lemma compress_entries_app (a b : list Event) :
  compress_entries (a ++ b) = compress_entries a ++ compress_entries b.
Proof. apply flat_map_app. Qed.

Lemma entries_posts (env : Env) (n : nat) (req : Request) :
  thought_entries (generate_posts env n req) = []
  /\ compress_entries (generate_posts env n req) = [].
Proof.
  unfold generate_posts. destruct (complete env n req); split; reflexivity.
Qed.

Lemma sum_Z_app (a b : list Z) : sum_Z (a ++ b) = sum_Z a + sum_Z b.
Proof.
  unfold sum_Z. induction a as [|x a IH]; cbn [app fold_right]; lia.
Qed.

(** The other threads assign neither the counters nor the context. *)
Lemma external_keeps (xs : list External) (o : ISBE) :
  let o' := fold_left (fun o x => apply_external x o) xs o in
  thought_count o' = thought_count o
  /\ compression_count o' = compression_count o
  /\ total_tokens_generated o' = total_tokens_generated o
  /\ _thought_durations o' = _thought_durations o
  /\ context_text o' = context_text o.
Proof.
  revert o. induction xs as [|x xs IH]; intros o; cbn [fold_left].
  - repeat split.
  - destruct (IH (apply_external x o)) as (H1 & H2 & H3 & H4 & H5).
    cbv zeta. rewrite H1, H2, H3, H4, H5. destruct x; repeat split.
Qed.

(** Rewrite the entries of a trace that has grown. *)
Ltac books_simpl :=
  unfold books_balance in *; simpl_fields;
  rewrite ?thought_entries_app, ?compress_entries_app;
  repeat match goal with
  | |- context [thought_entries (generate_posts ?e ?n ?r)] =>
      rewrite (proj1 (entries_posts e n r))
  | |- context [compress_entries (generate_posts ?e ?n ?r)] =>
      rewrite (proj2 (entries_posts e n r))
  end;
  cbn [thought_entries compress_entries flat_map log_kind app];
  rewrite ?app_nil_r.

Section Books.

Variable env : Env.

Lemma books_compress (w : World) :
  books_balance w -> books_balance (snd (_compress env w)).
Proof.
  destruct w as [o n tr]. intros (B1 & B2 & B3 & B4).
  simpl_fields in B1. simpl_fields in B2. simpl_fields in B3.
  simpl_fields in B4.
  rewrite compress_outcome. cbn [self tick trace].
  destruct (generate_answer env n _) as [[summary k]|].
  - cbv zeta. destruct (len (context_text o) =? 0); cbn [snd];
      books_simpl; repeat split; try assumption.
    + lia.
    + rewrite length_app. cbn [length]. lia.
  - cbn [snd]. books_simpl. repeat split; try assumption. lia.
Qed.

Lemma books_compression_check (w : World) :
  books_balance w -> books_balance (snd (compression_check env w)).
Proof.
  intros H.
  destruct (Z.gtb_spec (len (context_text (self w)))
                       (compress_at_chars (self w))) as [Hgt|Hle].
  - rewrite compression_check_above by lia. apply books_compress. exact H.
  - rewrite compression_check_below by exact Hle. exact H.
Qed.

(** Resetting [thinking] and adding the pause do not touch the books. *)
Lemma books_after_guard (w : World) (evs : list Event) :
  thought_entries evs = [] -> compress_entries evs = [] ->
  books_balance w ->
  books_balance (mkWorld (set_thinking false (self w)) (tick w)
                         (trace w ++ evs)).
Proof.
  intros Ht Hc (B1 & B2 & B3 & B4). books_simpl. rewrite Ht, Hc.
  rewrite ?app_nil_r. repeat split; assumption.
Qed.

Lemma books_think_once (w : World) :
  books_balance w -> books_balance (snd (_think_once env w)).
Proof.
  destruct w as [o n tr]. intros B.
  destruct (generate_answer env (S n) (think_request o))
    as [[text tokens]|] eqn:Hgen.
  - destruct (strip text) as [|c r] eqn:Hs.
    + rewrite (think_once_empty env o n tr text tokens Hgen Hs).
      cbn [snd].
      apply (books_after_guard (mkWorld o n tr)
               (generate_posts env (S n) (think_request o)));
        [apply entries_posts | apply entries_posts | exact B].
    + assert (Hne : strip text <> []) by (rewrite Hs; discriminate).
      rewrite (think_once_commit env o n tr text tokens Hgen Hne).
      rewrite think_guard_outcome. cbv zeta.
      match goal with
      | |- context [compression_check env ?wc] =>
          assert (Bc : books_balance wc)
      end.
      { destruct B as (B1 & B2 & B3 & B4).
        simpl_fields in B1. simpl_fields in B2. simpl_fields in B3.
        simpl_fields in B4. books_simpl.
        rewrite length_app. cbn [length]. rewrite Nat.add_1_r.
        rewrite seq_S, !map_app, B1. cbn [map log_n entry_tokens log_meta].
        rewrite sum_Z_app. cbn [sum_Z fold_right].
        repeat split; try assumption; try lia.
        f_equal. f_equal. lia. }
      apply books_compression_check in Bc.
      match goal with
      | |- context [compression_check env ?wc] =>
          destruct (compression_check env wc) as [[u|e] w1]
      end; cbn [fst snd] in Bc |- *.
      * rewrite <- (app_nil_r (trace w1)).
        apply books_after_guard; [reflexivity | reflexivity | exact Bc].
      * apply books_after_guard; [reflexivity | reflexivity | exact Bc].
  - rewrite (think_once_failure env o n tr Hgen). cbn [snd].
    apply (books_after_guard (mkWorld o n tr)
             (generate_posts env (S n) (think_request o)
              ++ [EvSleep backoff_seconds])); [| |exact B].
    + rewrite thought_entries_app, (proj1 (entries_posts _ _ _)).
      reflexivity.
    + rewrite compress_entries_app, (proj2 (entries_posts _ _ _)).
      reflexivity.
Qed.

Lemma books_respond (message : option str) (w : World) :
  books_balance w ->
  books_balance (snd (_respond_to_human env message w)).
Proof.
  destruct w as [o n tr]. intros B.
  destruct (generate_answer env n (dialog_request o message))
    as [[text k]|] eqn:Hgen.
  - rewrite (respond_commit env o n tr message text k Hgen).
    rewrite finally_outcome. cbv zeta. cbn [snd]. rewrite then_ret_world.
    match goal with
    | |- context [compression_check env ?wc] =>
        assert (Bc : books_balance wc)
    end.
    { destruct B as (B1 & B2 & B3 & B4).
      simpl_fields in B1. simpl_fields in B2. simpl_fields in B3.
      simpl_fields in B4. books_simpl. repeat split; assumption. }
    apply books_compression_check in Bc.
    rewrite <- (app_nil_r (trace _)).
    apply books_after_guard; [reflexivity | reflexivity | exact Bc].
  - rewrite (respond_failure env o n tr message Hgen). cbn [snd].
    apply (books_after_guard (mkWorld o n tr)
             (generate_posts env n (dialog_request o message)));
      [apply entries_posts | apply entries_posts | exact B].
Qed.

(** Assignments to the hand-off fields, and a wait, do not touch the
    books. *)
Lemma books_handoff (w : World) (o' : ISBE) (n' : nat) (evs : list Event) :
  thought_count o' = thought_count (self w) ->
  compression_count o' = compression_count (self w) ->
  total_tokens_generated o' = total_tokens_generated (self w) ->
  _thought_durations o' = _thought_durations (self w) ->
  thought_entries evs = [] -> compress_entries evs = [] ->
  books_balance w -> books_balance (mkWorld o' n' (trace w ++ evs)).
Proof.
  intros H1 H2 H3 H4 Ht Hc (B1 & B2 & B3 & B4).
  unfold books_balance. cbn [self trace].
  rewrite thought_entries_app, compress_entries_app, Ht, Hc, !app_nil_r.
  rewrite H1, H2, H3, H4. repeat split; assumption.
Qed.

Lemma books_loop_body (w : World) :
  books_balance w -> books_balance (snd (loop_body env w)).
Proof.
  intros B. destruct (_human_event (self w)) eqn:Hev.
  - rewrite loop_body_dialog by exact Hev. cbv zeta.
    match goal with
    | |- context [_respond_to_human env ?m ?w0] =>
        assert (B0 : books_balance w0)
          by (rewrite <- (app_nil_r (trace w));
              apply books_handoff; try reflexivity; exact B);
        apply (books_respond m) in B0;
        destruct (_respond_to_human env m w0) as [[r|e] w1]
    end; cbn [fst snd] in B0 |- *; [|exact B0].
    rewrite <- (app_nil_r (trace w1)).
    apply books_handoff; try reflexivity. exact B0.
  - rewrite loop_body_think by exact Hev. cbv zeta. cbn [snd].
    apply books_handoff; try reflexivity.
    apply books_think_once. exact B.
Qed.

Lemma books_externals (w : World) :
  books_balance w -> books_balance (snd (externals env w)).
Proof.
  intros B. rewrite externals_outcome. cbn [snd].
  destruct (external_keeps (arrivals env (tick w)) (self w))
    as (H1 & H2 & H3 & H4 & _).
  rewrite <- (app_nil_r (trace w)).
  apply books_handoff; try assumption; reflexivity.
Qed.

Lemma books_loop (n : nat) (w : World) :
  books_balance w -> books_balance (snd (_loop env n w)).
Proof.
  revert w. induction n as [|n IH]; intros w B; [exact B|].
  rewrite loop_unfold. cbv zeta.
  pose proof (books_externals w B) as B1.
  destruct (alive _); [|exact B1].
  pose proof (books_loop_body _ B1) as B2.
  destruct (fst (loop_body env (snd (externals env w)))); [|exact B2].
  apply IH. exact B2.
Qed.

End Books.

(** X9. With a backend whose answers can be printed, logged and measured
    (text without a lone surrogate, an integer token count that converts
    to a float), the counters agree with the log at every point where the
    loop stands between two iterations of a session: the thoughts logged
    are numbered 1, 2, 3, ... without a gap; [thought_count] is their
    number, and so is the number of recorded durations (the average of
    [status] divides by it); [total_tokens_generated] is the sum of the
    tokens the log lines report; and [compression_count] is at least the
    number of compressions logged, since it counts the attempts. *)
Theorem counters_agree_with_log
    (env : Env) (ti : Q) (mc ca : Z) (sn : str) (cs : option str)
    (id : str) (n : nat) :
  answers_plainly env ->
  books_balance
    (snd (session env id n (mkWorld (__init__ ti mc ca sn cs) O []))).
Proof.
  intros _. unfold session. unfold bind.
  destruct (start id (mkWorld (__init__ ti mc ca sn cs) O []))
    as [r w0] eqn:Es.
  assert (Hw0 : books_balance w0).
  { apply (f_equal snd) in Es. cbn [snd] in Es. subst w0.
    repeat split. cbn. lia. }
  assert (Hr : r = Ok tt).
  { apply (f_equal fst) in Es. cbn [fst] in Es. subst r. reflexivity. }
  subst r. apply books_loop. exact Hw0.
Qed.

(** An instance: three iterations of a session whose backend always
    answers ["hi"]. *)
Lemma counters_agree_with_log_witness :
  books_balance
    (snd (session Scenario.always_hi [109]%N 3
            (mkWorld Scenario.isbe0 O []))).
Proof.
  apply (counters_agree_with_log Scenario.always_hi 0 6000 50 []
           (Some Scenario.seed3) [109]%N 3).
  intros t req text tokens [H|H]; [|discriminate H].
  injection H as <- <-. split; reflexivity.
Defined.

(** *** Counters only grow, and the context is never emptied *)

Lemma counters_grow_refl (w : World) : counters_grow w w.
Proof. unfold counters_grow. repeat split; lia. Qed.

Lemma counters_grow_trans (a b c : World) :
  counters_grow a b -> counters_grow b c -> counters_grow a c.
Proof. unfold counters_grow. intros (? & ? & ?) (? & ? & ?). lia. Qed.

Lemma context_stays_refl (w : World) : context_stays w w.
Proof. intros H. exact H. Qed.

Lemma context_stays_trans (a b c : World) :
  context_stays a b -> context_stays b c -> context_stays a c.
Proof. unfold context_stays. auto. Qed.

#[local] Hint Resolve counters_grow_refl counters_grow_trans
  context_stays_refl context_stays_trans : frame.

Lemma grow_modify (f : ISBE -> ISBE) :
  (forall o, thought_count o <= thought_count (f o)
             /\ compression_count o <= compression_count (f o)
             /\ (length (_thought_durations o)
                 <= length (_thought_durations (f o)))%nat) ->
  ensures counters_grow (modify f).
Proof. intros H [o n tr]. exact (H o). Qed.

Lemma grow_same (w w' : World) : self w' = self w -> counters_grow w w'.
Proof. intros H. unfold counters_grow. rewrite H. repeat split; lia. Qed.

Lemma grow_emit (e : Event) : ensures counters_grow (emit e).
Proof. intros w. apply grow_same. reflexivity. Qed.

Lemma grow_ask {A} (q : nat -> A) : ensures counters_grow (ask q).
Proof. intros w. apply grow_same. reflexivity. Qed.

Lemma stays_modify (f : ISBE -> ISBE) :
  (forall o, context_text o <> [] -> context_text (f o) <> []) ->
  ensures context_stays (modify f).
Proof. intros H [o n tr]. exact (H o). Qed.

Lemma stays_emit (e : Event) : ensures context_stays (emit e).
Proof. intros w H. exact H. Qed.

Lemma stays_ask {A} (q : nat -> A) : ensures context_stays (ask q).
Proof. intros w H. exact H. Qed.

(** A concatenation with a literal in it is not empty. *)
Ltac not_nil :=
  let E := fresh "E" in
  intro E;
  repeat (apply app_eq_nil in E; let X := fresh "X" in destruct E as [X E]);
  try discriminate E;
  repeat match goal with
  | X : _ ++ _ = [] |- _ =>
      apply app_eq_nil in X; let Y := fresh "Y" in destruct X as [Y X]
  end;
  try discriminate.

Create HintDb grow.
#[local] Hint Resolve grow_emit grow_ask : grow.
#[local] Hint Extern 1 (ensures counters_grow (modify _)) =>
  apply grow_modify; intro; simpl_fields;
  rewrite ?length_app; cbn [length]; repeat split; lia : grow.

Create HintDb stays.
#[local] Hint Resolve stays_emit stays_ask : stays.
#[local] Hint Extern 1 (ensures context_stays (modify _)) =>
  apply stays_modify; intro; simpl_fields;
  first [exact (fun H => H)
        | intros _; unfold compressed_context; not_nil] : stays.

Section Growth.

Variable env : Env.

Lemma grow_generate (p : str) (mt : Z) (t : Q) :
  ensures counters_grow (_generate env p mt t).
Proof.
  unfold _generate, _complete, _chat, post. repeat frame_step;
    auto with grow.
Qed.

Lemma stays_generate (p : str) (mt : Z) (t : Q) :
  ensures context_stays (_generate env p mt t).
Proof.
  unfold _generate, _complete, _chat, post. repeat frame_step;
    auto with stays.
Qed.

Lemma grow_log (k : LogKind) (c : str) (meta : LogMeta) :
  ensures counters_grow (_log k c meta).
Proof. unfold _log. repeat frame_step; auto with grow. Qed.

Lemma stays_log (k : LogKind) (c : str) (meta : LogMeta) :
  ensures context_stays (_log k c meta).
Proof. unfold _log. repeat frame_step; auto with stays. Qed.

#[local] Hint Resolve grow_generate grow_log : grow.
#[local] Hint Resolve stays_generate stays_log : stays.

Lemma grow_compress : ensures counters_grow (_compress env).
Proof. unfold _compress. repeat frame_step; auto with grow. Qed.

Lemma stays_compress : ensures context_stays (_compress env).
Proof. unfold _compress. repeat frame_step; auto with stays. Qed.

#[local] Hint Resolve grow_compress : grow.
#[local] Hint Resolve stays_compress : stays.

Lemma grow_compression_check : ensures counters_grow (compression_check env).
Proof. unfold compression_check. repeat frame_step; auto with grow. Qed.

Lemma stays_compression_check :
  ensures context_stays (compression_check env).
Proof. unfold compression_check. repeat frame_step; auto with stays. Qed.

#[local] Hint Resolve grow_compression_check : grow.
#[local] Hint Resolve stays_compression_check : stays.

Lemma grow_think_once : ensures counters_grow (_think_once env).
Proof.
  unfold _think_once, think_guard, think_body, time_time.
  repeat frame_step; auto with grow.
Qed.

Lemma stays_think_once : ensures context_stays (_think_once env).
Proof.
  unfold _think_once, think_guard, think_body, time_time.
  repeat frame_step; auto with stays.
Qed.

Lemma grow_respond (message : option str) :
  ensures counters_grow (_respond_to_human env message).
Proof. unfold _respond_to_human. repeat frame_step; auto with grow. Qed.

Lemma stays_respond (message : option str) :
  ensures context_stays (_respond_to_human env message).
Proof. unfold _respond_to_human. repeat frame_step; auto with stays. Qed.

#[local] Hint Resolve grow_think_once grow_respond : grow.
#[local] Hint Resolve stays_think_once stays_respond : stays.

Lemma grow_externals : ensures counters_grow (externals env).
Proof.
  unfold externals. repeat frame_step; auto with grow.
  apply grow_modify. intro o.
  destruct (external_keeps a o) as (H1 & H2 & _ & H4 & _).
  rewrite H1, H2, H4. repeat split; lia.
Qed.

Lemma stays_externals : ensures context_stays (externals env).
Proof.
  unfold externals. repeat frame_step; auto with stays.
  apply stays_modify. intro o.
  destruct (external_keeps a o) as (_ & _ & _ & _ & H5).
  rewrite H5. exact (fun H => H).
Qed.

#[local] Hint Resolve grow_externals : grow.
#[local] Hint Resolve stays_externals : stays.

Lemma grow_loop_body : ensures counters_grow (loop_body env).
Proof. unfold loop_body. repeat frame_step; auto with grow. Qed.

Lemma stays_loop_body : ensures context_stays (loop_body env).
Proof. unfold loop_body. repeat frame_step; auto with stays. Qed.

#[local] Hint Resolve grow_loop_body : grow.
#[local] Hint Resolve stays_loop_body : stays.

Lemma grow_loop (n : nat) : ensures counters_grow (_loop env n).
Proof.
  induction n as [|n IH]; cbn [_loop]; repeat frame_step; auto with grow.
Qed.

Lemma stays_loop (n : nat) : ensures context_stays (_loop env n).
Proof.
  induction n as [|n IH]; cbn [_loop]; repeat frame_step; auto with stays.
Qed.

End Growth.

(** X10. No turn, no loop iteration and no call of the other threads
    ever lowers [thought_count] or [compression_count], or shortens the
    list of durations: over any number of iterations from any state they
    only grow. *)
Theorem counters_never_decrease (env : Env) (n : nat) (w : World) :
  let w' := snd (_loop env n w) in
  thought_count (self w) <= thought_count (self w')
  /\ compression_count (self w) <= compression_count (self w')
  /\ (length (_thought_durations (self w))
      <= length (_thought_durations (self w')))%nat.
Proof. exact (grow_loop env n w). Qed.

(** X11. The context is never empty once the session has started: the
    seed is not empty (a custom seed is used only when it is not, and the
    built-in ones are not), a think turn and a dialog turn append, and a
    compression rebuilds the context around the core-memory tag. *)
Theorem context_never_empty
    (env : Env) (ti : Q) (mc ca : Z) (sn : str) (cs : option str)
    (id : str) (n : nat) :
  context_text
    (self (snd (session env id n (mkWorld (__init__ ti mc ca sn cs) O []))))
  <> [].
Proof.
  unfold session. unfold bind.
  destruct (start id (mkWorld (__init__ ti mc ca sn cs) O []))
    as [r w0] eqn:Es.
  assert (Hw0 : context_text (self w0) <> []).
  { apply (f_equal snd) in Es. cbn [snd] in Es. subst w0.
    change (seed_text (__init__ ti mc ca sn cs) <> []).
    destruct cs as [[|c s]|].
    - apply (builtin_seed_facts ti mc ca sn (Some []) eq_refl).
    - discriminate.
    - apply (builtin_seed_facts ti mc ca sn None eq_refl). }
  assert (Hr : r = Ok tt).
  { apply (f_equal fst) in Es. cbn [fst] in Es. subst r. reflexivity. }
  subst r. apply (stays_loop env n w0). exact Hw0.
Qed.

(** ** Further properties: the loop and its callers *)

(** No call of the other threads sets [alive]; [stop] clears it. *)
Lemma external_alive_false (xs : list External) (o : ISBE) :
  alive o = false ->
  alive (fold_left (fun o x => apply_external x o) xs o) = false.
Proof.
  revert o. induction xs as [|x xs IH]; intros o H; [exact H|].
  cbn [fold_left]. apply IH. destruct x; [exact H | reflexivity].
Qed.

Lemma external_stop (xs : list External) (o : ISBE) :
  In ExtStop xs ->
  alive (fold_left (fun o x => apply_external x o) xs o) = false.
Proof.
  revert o. induction xs as [|x xs IH]; intros o H; [destruct H|].
  cbn [fold_left]. destruct H as [-> | H].
  - apply external_alive_false. reflexivity.
  - apply IH. exact H.
Qed.

Lemma external_no_stop (xs : list External) (o : ISBE) :
  ~ In ExtStop xs ->
  alive (fold_left (fun o x => apply_external x o) xs o) = alive o.
Proof.
  revert o. induction xs as [|x xs IH]; intros o H; [reflexivity|].
  cbn [fold_left]. rewrite IH.
  - destruct x; [reflexivity|]. exfalso. apply H. left. reflexivity.
  - intros Hin. apply H. right. exact Hin.
Qed.

(** X12. [stop] is obeyed at the loop's next test of [alive], before
    anything else: the loop returns without a POST, a log line or a wait,
    leaving counters and context as they were, even when a submission is
    pending, which is then never answered.  And a loop that finds [alive]
    false does the same, whatever the other threads call: only [start]
    sets it. *)
Theorem stop_ends_loop (env : Env) (n : nat) (w : World) :
  In ExtStop (arrivals env (tick w)) \/ alive (self w) = false ->
  let r := _loop env (S n) w in
  fst r = Ok Exited
  /\ alive (self (snd r)) = false
  /\ trace (snd r) = trace w
  /\ thought_count (self (snd r)) = thought_count (self w)
  /\ compression_count (self (snd r)) = compression_count (self w)
  /\ context_text (self (snd r)) = context_text (self w).
Proof.
  intros H. cbv zeta. rewrite loop_unfold. cbv zeta.
  rewrite externals_outcome. cbn [snd self].
  assert (Ha : alive (fold_left (fun o x => apply_external x o)
                        (arrivals env (tick w)) (self w)) = false).
  { destruct H as [H|H];
      [apply external_stop | apply external_alive_false]; exact H. }
  rewrite Ha. cbn [fst snd self trace].
  destruct (external_keeps (arrivals env (tick w)) (self w))
    as (H1 & H2 & _ & _ & H5).
  repeat split; assumption.
Qed.

(** An instance: [stop] and a submission arrive together. *)
Lemma stop_ends_loop_witness :
  let env := Scenario.mock_with (fun _ => Some (Scenario.hi, 2))
               (fun _ => [ExtSpeak Scenario.hi; ExtStop]) in
  let r := _loop env 3 Scenario.started in
  fst r = Ok Exited
  /\ alive (self (snd r)) = false
  /\ trace (snd r) = []
  /\ thought_count (self (snd r)) = 0
  /\ compression_count (self (snd r)) = 0
  /\ context_text (self (snd r)) = Scenario.seed3.
Proof.
  intros env.
  apply (stop_ends_loop env 2 Scenario.started).
  left. right. left. reflexivity.
Defined.

(** An iteration leaves [alive] as it found it. *)
Lemma loop_body_alive (env : Env) (w : World) :
  alive (self (snd (loop_body env w))) = alive (self w).
Proof.
  destruct (_human_event (self w)) eqn:Hev.
  - rewrite loop_body_dialog by exact Hev. cbv zeta.
    match goal with
    | |- context [_respond_to_human env ?m ?w0] =>
        destruct (handoff_respond env m w0) as (Ha & _);
        destruct (_respond_to_human env m w0) as [[r|e] w1]
    end; cbn [fst snd self] in Ha |- *; simpl_fields; exact Ha.
  - rewrite loop_body_think by exact Hev. cbv zeta. cbn [snd self].
    apply (handoff_think_once env w).
Qed.

(** X13. Nothing but [stop] ends the loop normally: while the other
    threads do not call [stop], a live loop never returns, in any number
    of iterations; either it is still running, with [alive] true, or an
    exception has ended it. *)
Theorem loop_exits_only_on_stop (env : Env) (n : nat) (w : World) :
  (forall t, ~ In ExtStop (arrivals env t)) ->
  alive (self w) = true ->
  fst (_loop env n w) <> Ok Exited
  /\ alive (self (snd (_loop env n w))) = true.
Proof.
  intros Hno. revert w. induction n as [|n IH]; intros w Ha.
  - split; [discriminate | exact Ha].
  - rewrite loop_unfold. cbv zeta. rewrite externals_outcome.
    cbn [snd self]. rewrite (external_no_stop _ _ (Hno (tick w))), Ha.
    match goal with
    | |- context [loop_body env ?w1] =>
        pose proof (loop_body_alive env w1) as Hb;
        destruct (loop_body env w1) as [[u|e] w2]
    end; cbn [fst snd self] in Hb |- *;
      rewrite (external_no_stop _ _ (Hno (tick w))), Ha in Hb.
    + apply IH. exact Hb.
    + split; [discriminate | exact Hb].
Qed.

Lemma loop_exits_only_on_stop_witness :
  fst (_loop Scenario.caller_arrives 4 Scenario.started) <> Ok Exited
  /\ alive (self (snd (_loop Scenario.caller_arrives 4 Scenario.started)))
     = true.
Proof.
  apply (loop_exits_only_on_stop Scenario.caller_arrives 4 Scenario.started);
    [|reflexivity].
  intros t H. cbn in H. destruct (t =? 0)%nat; cbn in H;
    repeat (destruct H as [H|H]; [discriminate H|]); exact H.
Defined.




(** [speak] when the loop thread runs one iteration during the wait. *)
Lemma speak_one_turn (env : Env) (message : str) (w : World) :
  alive (self w) = true ->
  arrivals env (tick w) = [] ->
  speak env message 1 w =
  (let w0 := mkWorld (set_human_event false
                        (apply_external (ExtSpeak message) (self w)))
                     (S (tick w)) (trace w) in
   let r := _respond_to_human env (Some message) w0 in
   let o' := match fst r with
             | Ok response =>
                 set_response_event true
                   (set_response_text (Some response) (self (snd r)))
             | Raise _ => self (snd r)
             end in
   (Ok (speak_result o'), mkWorld o' (tick (snd r)) (trace (snd r)))).
Proof.
  destruct w as [o n tr]. cbn [self tick trace]. intros Ha Harr.
  unfold speak. unfold bind at 1. unfold modify at 1.
  cbn [self tick trace apply_external].
  unfold bind at 1. unfold in_loop_thread.
  rewrite loop_step by (simpl_fields; assumption).
  cbn [self tick trace].
  rewrite loop_body_dialog by reflexivity. cbn [self tick trace].
  simpl_fields.
  destruct (_respond_to_human env (Some message) _)
    as [[response|e] [o1 n1 tr1]]; reflexivity.
Qed.

(** X15. The round trip of a submission whose message and reply can be
    logged (no lone surrogate).  When the loop is alive and the dialog
    call is answered with text that is not empty once stripped, [speak]
    returns that stripped text, the event is cleared and the response
    event set, [thought_count] does not move, and the exchange is in the
    context: the old context, the marker with the message, the reply and
    a newline.  When that context is over the threshold and the
    compression call is answered too, with a summary that can be logged,
    the reply is returned all the same, and the context is the compressed
    one. *)
Theorem speak_returns_the_reply
    (env : Env) (w : World) (message text : str) (k : Z) :
  let req := dialog_request (self w) (Some message) in
  let appended :=
    (context_text (self w) ++ injection (Some message))
    ++ strip text ++ Lit.nl in
  let res := speak env message 1 w in
  alive (self w) = true ->
  arrivals env (tick w) = [] ->
  generate_answer env (S (tick w)) req = Some (text, k) ->
  encodable message = true ->
  encodable (strip text) = true ->
  strip text <> [] ->
  (len appended <= compress_at_chars (self w) ->
   fst res = Ok (strip text)
   /\ context_text (self (snd res)) = appended
   /\ _human_event (self (snd res)) = false
   /\ _response_event (self (snd res)) = true
   /\ thought_count (self (snd res)) = thought_count (self w))
  /\ (forall summary j,
        len appended > compress_at_chars (self w) ->
        generate_answer env (generate_end env (S (tick w)) req)
          (request_of (self w) (compress_prompt appended)
             compress_max_tokens compress_temperature)
          = Some (summary, j) ->
        encodable (strip summary) = true ->
        fst res = Ok (strip text)
        /\ context_text (self (snd res))
           = compressed_context (tool_definitions (self w)) (strip summary)
        /\ _response_event (self (snd res)) = true).
Proof.
  destruct w as [o n tr]. cbv zeta. cbn [self tick].
  intros Ha Harr Hgen _ _ Hne.
  rewrite (speak_one_turn env message (mkWorld o n tr) Ha Harr).
  cbv zeta. cbn [self tick trace apply_external].
  match goal with
  | |- context [_respond_to_human env ?m (mkWorld ?o' ?n' ?tr')] =>
      rewrite (respond_commit env o' n' tr' m text k Hgen)
  end.
  rewrite finally_outcome. cbv zeta.
  rewrite then_ret_world, then_ret_result.
  assert (Hres : forall t : str, t <> [] ->
            speak_result (set_response_event true
                            (set_response_text (Some t) o)) = t).
  { intros [|c r] H; [contradiction | reflexivity]. }
  split.
  - intros Hle. rewrite compression_check_below by exact Hle.
    cbn [fst snd]. unfold speak_result. simpl_fields.
    destruct (strip text) as [|c r]; [contradiction|]. repeat split.
  - intros summary j Hgt Hsum _.
    rewrite compression_check_above by exact Hgt.
    match goal with
    | |- context [_compress env ?wc] =>
        rewrite (compress_success env wc summary j Hsum)
    end.
    + cbn [fst snd]. unfold speak_result. simpl_fields.
      destruct (strip text) as [|c r]; [contradiction|]. repeat split.
    + simpl_fields. intros E. apply len_zero_nil in E. revert E. not_nil.
Qed.

Lemma speak_returns_the_reply_witness :
  let w := Scenario.started in
  let res := speak Scenario.always_hi Scenario.hi 1 w in
  let long := speak Scenario.long_summary Scenario.hi 1 w in
  (fst res = Ok Scenario.hi
   /\ context_text (self (snd res))
      = (Scenario.seed3 ++ injection (Some Scenario.hi))
        ++ Scenario.hi ++ Lit.nl
   /\ _human_event (self (snd res)) = false
   /\ _response_event (self (snd res)) = true
   /\ thought_count (self (snd res)) = 0)
  /\ (fst long = Ok Scenario.a60
      /\ context_text (self (snd long)) = compressed_context [] Scenario.b30
      /\ _response_event (self (snd long)) = true).
Proof.
  intros w res long. split.
  - apply (speak_returns_the_reply Scenario.always_hi w Scenario.hi
             Scenario.hi 2); try reflexivity; vm_compute; discriminate.
  - apply (speak_returns_the_reply Scenario.long_summary w Scenario.hi
             Scenario.a60 12) with (summary := Scenario.b30) (j := 5);
      try reflexivity; vm_compute; discriminate.
Defined.

(** ** Further properties: the backend calls *)

(** X16. [_generate] asks the completion endpoint first and returns its
    answer without asking the chat endpoint; only when the completion
    endpoint raised does it ask the chat endpoint, with the same prompt
    and sampling parameters, and then the outcome is the chat endpoint's:
    its answer, or its failure.  It assigns no field of the object. *)
Theorem generate_prefers_completion
    (env : Env) (p : str) (mt : Z) (t : Q) (w : World) :
  let req := request_of (self w) p mt t in
  let r := _generate env p mt t w in
  self (snd r) = self w
  /\ (forall a, complete env (tick w) req = Some a ->
        fst r = Ok a
        /\ new_events (_generate env p mt t) w = [EvPost Completions req])
  /\ (forall a, complete env (tick w) req = None ->
        chat env (S (tick w)) req = Some a ->
        fst r = Ok a
        /\ new_events (_generate env p mt t) w
           = [EvPost Completions req; EvPost ChatCompletions req])
  /\ (complete env (tick w) req = None ->
      chat env (S (tick w)) req = None ->
      fst r = Raise RequestError
      /\ new_events (_generate env p mt t) w
         = [EvPost Completions req; EvPost ChatCompletions req]).
Proof.
  cbv zeta. unfold new_events. rewrite generate_outcome.
  cbn [fst snd self trace]. unfold generate_answer, generate_posts.
  split; [reflexivity|]. split; [|split].
  - intros a H. rewrite H. split; [reflexivity|].
    rewrite skipn_app, skipn_all, Nat.sub_diag. reflexivity.
  - intros a H1 H2. rewrite H1, H2. split; [reflexivity|].
    rewrite skipn_app, skipn_all, Nat.sub_diag. reflexivity.
  - intros H1 H2. rewrite H1, H2. split; [reflexivity|].
    rewrite skipn_app, skipn_all, Nat.sub_diag. reflexivity.
Qed.

Lemma generate_prefers_completion_witness :
  let w := Scenario.started in
  let req := request_of (self w) Scenario.hi 256 0.85%Q in
  (fst (_generate Scenario.always_hi Scenario.hi 256 0.85%Q w)
   = Ok (Scenario.hi, 2)
   /\ new_events (_generate Scenario.always_hi Scenario.hi 256 0.85%Q) w
      = [EvPost Completions req])
  /\ (fst (_generate Scenario.unreachable Scenario.hi 256 0.85%Q w)
      = Raise RequestError
      /\ new_events (_generate Scenario.unreachable Scenario.hi 256 0.85%Q) w
         = [EvPost Completions req; EvPost ChatCompletions req]).
Proof.
  intros w req.
  destruct (generate_prefers_completion Scenario.always_hi Scenario.hi 256
              0.85%Q w) as (_ & A & _).
  destruct (generate_prefers_completion Scenario.unreachable Scenario.hi 256
              0.85%Q w) as (_ & _ & _ & B).
  split; [apply (A (Scenario.hi, 2)); reflexivity | apply B; reflexivity].
Defined.

Lemma last_chars_recent (n : nat) (older recent : str) :
  length recent = n -> last_chars n (older ++ recent) = recent.
Proof.
  intros H. unfold last_chars. rewrite length_app, H.
  replace (length older + n - n)%nat with (length older) by lia.
  rewrite skipn_app, skipn_all, Nat.sub_diag. reflexivity.
Qed.

Lemma last_chars_short (n : nat) (s : str) :
  (length s <= n)%nat -> last_chars n s = s.
Proof.
  intros H. unfold last_chars.
  replace (length s - n)%nat with O by lia. reflexivity.
Qed.

(** X17. A compression sees the last 2000 characters of the context and
    nothing older.  On a context of 2000 characters or more the prompt is
    84 characters of instruction around that window, 2084 in all,
    whatever precedes the window; and two objects that differ
    only in what precedes the same last 2000 characters make the same
    request and get the same outcome, and when the compression succeeds
    they are left with the same context. *)
Theorem compression_sees_last_2000
    (env : Env) (o : ISBE) (n : nat) (tr : list Event)
    (older recent : str) :
  length recent = 2000%nat ->
  let w1 := mkWorld (set_context_text (older ++ recent) o) n tr in
  let w2 := mkWorld (set_context_text recent o) n tr in
  compress_prompt (older ++ recent) = compress_prompt recent
  /\ len (compress_prompt (older ++ recent)) = 2084
  /\ compress_request (counted (self w1)) = compress_request (counted (self w2))
  /\ fst (_compress env w1) = fst (_compress env w2)
  /\ posted (trace (snd (_compress env w1)))
     = posted (trace (snd (_compress env w2)))
  /\ (fst (_compress env w1) = Ok tt ->
      context_text (self (snd (_compress env w1)))
      = context_text (self (snd (_compress env w2)))).
Proof.
  intros Hlen w1 w2.
  assert (Hp : compress_prompt (older ++ recent) = compress_prompt recent).
  { unfold compress_prompt.
    rewrite (last_chars_recent 2000 older recent Hlen).
    rewrite last_chars_short by lia. reflexivity. }
  assert (Hreq : compress_request (counted (self w1))
                 = compress_request (counted (self w2))).
  { unfold compress_request, w1, w2. simpl_fields. rewrite Hp. reflexivity. }
  split; [exact Hp|]. split; [|split; [exact Hreq|]].
  - rewrite Hp. unfold compress_prompt. rewrite last_chars_short by lia.
    rewrite !len_app. unfold len at 2. rewrite Hlen. reflexivity.
  - rewrite !compress_outcome. rewrite Hreq.
    unfold w1, w2. cbn [self tick trace].
    destruct (generate_answer env n _) as [[summary k]|].
    + cbv zeta. simpl_fields.
      destruct (Z.eqb_spec (len (older ++ recent)) 0) as [E|E].
      { apply len_zero_nil in E. apply app_eq_nil in E.
        destruct E as [_ E]. rewrite E in Hlen. discriminate Hlen. }
      destruct (Z.eqb_spec (len recent) 0) as [E'|E'].
      { apply len_zero_nil in E'. rewrite E' in Hlen. discriminate Hlen. }
      cbn [fst snd self trace]. simpl_fields.
      repeat split. unfold posted. rewrite !flat_map_app.
      reflexivity.
    + cbn [fst snd self trace]. simpl_fields.
      repeat split. discriminate.
Qed.

Lemma compression_sees_last_2000_witness :
  let recent := repeat 98%N 2000 in
  let w1 := mkWorld (set_context_text (Scenario.a60 ++ recent)
                       Scenario.isbe0) O [] in
  let w2 := mkWorld (set_context_text recent Scenario.isbe0) O [] in
  compress_prompt (Scenario.a60 ++ recent) = compress_prompt recent
  /\ len (compress_prompt (Scenario.a60 ++ recent)) = 2084
  /\ compress_request (counted (self w1)) = compress_request (counted (self w2))
  /\ fst (_compress Scenario.always_hi w1) = fst (_compress Scenario.always_hi w2)
  /\ posted (trace (snd (_compress Scenario.always_hi w1)))
     = posted (trace (snd (_compress Scenario.always_hi w2)))
  /\ context_text (self (snd (_compress Scenario.always_hi w1)))
     = context_text (self (snd (_compress Scenario.always_hi w2))).
Proof.
  intros recent w1 w2.
  destruct (compression_sees_last_2000 Scenario.always_hi Scenario.isbe0 O []
              Scenario.a60 recent (repeat_length 98%N 2000))
    as (A & B & C & D & E & F).
  repeat (split; [assumption|]).
  apply F. reflexivity.
Defined.


(** ** Further properties: what the loop never assigns, and what it logs *)

(** X18. The configuration is read-only after [load]: no number of loop
    iterations, whatever the backend and the other threads do, changes
    [thought_interval], [max_context_chars], [compress_at_chars],
    [seed_text], [tool_definitions] or [model_name]. *)
Theorem configuration_is_never_assigned (env : Env) (n : nat) (w : World) :
  let w' := snd (_loop env n w) in
  thought_interval (self w') = thought_interval (self w)
  /\ max_context_chars (self w') = max_context_chars (self w)
  /\ compress_at_chars (self w') = compress_at_chars (self w)
  /\ seed_text (self w') = seed_text (self w)
  /\ tool_definitions (self w') = tool_definitions (self w)
  /\ model_name (self w') = model_name (self w).
Proof. exact (config_loop env n w). Qed.

(** X19. A turn does not touch the hand-off with the callers: after a
    think turn, and after a dialog turn, [alive], [_human_input],
    [_human_event], [_response_text] and [_response_event] are what they
    were.  A submission pending before a think turn is pending after it;
    only the loop's own statements clear the event and hand over the
    response. *)
Theorem turns_keep_the_handoff
    (env : Env) (w : World) (message : option str) :
  (let w' := snd (_think_once env w) in
   alive (self w') = alive (self w)
   /\ _human_input (self w') = _human_input (self w)
   /\ _human_event (self w') = _human_event (self w)
   /\ _response_text (self w') = _response_text (self w)
   /\ _response_event (self w') = _response_event (self w))
  /\ (let w' := snd (_respond_to_human env message w) in
      alive (self w') = alive (self w)
      /\ _human_input (self w') = _human_input (self w)
      /\ _human_event (self w') = _human_event (self w)
      /\ _response_text (self w') = _response_text (self w)
      /\ _response_event (self w') = _response_event (self w)).
Proof.
  split; [exact (handoff_think_once env w)
         | exact (handoff_respond env message w)].
Qed.

Lemma posts_are_stripped (env : Env) (n : nat) (req : Request) :
  Forall thought_is_stripped (generate_posts env n req).
Proof.
  unfold generate_posts. destruct (complete env n req);
    repeat constructor.
Qed.

Section Stripped.

Variable env : Env.

Lemma stripped_compression_check :
  ensures (extends_with thought_is_stripped) (compression_check env).
Proof.
  apply trace_compression_check.
  - intros ep o p. exact I.
  - intros l Hk. cbn [thought_is_stripped]. rewrite Hk. discriminate.
Qed.

Lemma stripped_think_once :
  ensures (extends_with thought_is_stripped) (_think_once env).
Proof.
  intros [o n tr].
  destruct (generate_answer env (S n) (think_request o))
    as [[text tokens]|] eqn:Hgen.
  - destruct (strip text) as [|c r] eqn:Hs.
    + rewrite (think_once_empty env o n tr text tokens Hgen Hs).
      eexists. split; [reflexivity | apply posts_are_stripped].
    + assert (Hne : strip text <> []) by (rewrite Hs; discriminate).
      rewrite (think_once_commit env o n tr text tokens Hgen Hne).
      rewrite think_guard_outcome. cbv zeta.
      match goal with
      | |- context [compression_check env ?wc] =>
          destruct (stripped_compression_check wc) as (evs & Htr & Hall);
          destruct (compression_check env wc) as [res w1]
      end.
      cbn [fst snd self tick trace] in Htr |- *.
      exists ((generate_posts env (S n) (think_request o)
               ++ [EvLog (mkLogEntry (thought_count o + 1) KThought
                            (strip text)
                            (len (context_text
                                    (thought_committed (set_thinking true o)
                                       (strip text) tokens
                                       (clock env
                                          (generate_end env (S n)
                                             (think_request o))
                                        - clock env n))))
                            (MetaThought
                               (clock env
                                  (generate_end env (S n) (think_request o))
                                - clock env n) tokens
                               (if Qpositive
                                     (clock env
                                        (generate_end env (S n)
                                           (think_request o))
                                      - clock env n)
                                then (inject_Z tokens
                                      / (clock env
                                           (generate_end env (S n)
                                              (think_request o))
                                         - clock env n))%Q
                                else 0%Q)))])
              ++ evs
              ++ match res with
                 | Ok _ => []
                 | Raise _ => [EvSleep backoff_seconds]
                 end).
      split.
      * destruct res; rewrite Htr, <- ?app_assoc, ?app_nil_r; reflexivity.
      * apply Forall_app. split; [apply Forall_app; split|].
        -- apply posts_are_stripped.
        -- constructor; [|constructor]. intros _. cbn [log_content].
           split; [exact Hne | apply strip_idempotent].
        -- apply Forall_app. split; [exact Hall|].
           destruct res; repeat constructor.
  - rewrite (think_once_failure env o n tr Hgen).
    eexists. split; [reflexivity|].
    apply Forall_app. split; [apply posts_are_stripped|].
    repeat constructor.
Qed.

Lemma stripped_respond (message : option str) :
  ensures (extends_with thought_is_stripped) (_respond_to_human env message).
Proof.
  apply trace_respond.
  - intros ep o p. exact I.
  - intros l Hk. cbn [thought_is_stripped]. rewrite Hk. discriminate.
  - intros ep o p. exact I.
  - intros l Hk. cbn [thought_is_stripped]. rewrite Hk. discriminate.
Qed.

Lemma stripped_loop_body :
  ensures (extends_with thought_is_stripped) (loop_body env).
Proof.
  unfold loop_body. repeat frame_step;
    first [apply trace_modify | apply stripped_respond
          | apply stripped_think_once
          | apply trace_emit; exact I].
Qed.

Lemma stripped_loop (n : nat) :
  ensures (extends_with thought_is_stripped) (_loop env n).
Proof.
  induction n as [|n IH]; cbn [_loop]; unfold externals;
    repeat frame_step;
    first [apply trace_modify | apply trace_ask | apply stripped_loop_body
          | exact IH].
Qed.

End Stripped.

(** X20. No empty thought is ever logged: every thought line the loop
    writes holds text that is not empty and has no white space at either
    end, in any number of iterations, whatever the backend returns. *)
Theorem logged_thoughts_are_stripped (env : Env) (n : nat) (w : World) :
  Forall (fun l => log_content l <> []
                   /\ strip (log_content l) = log_content l)
         (thought_entries (new_events (_loop env n) w)).
Proof.
  pose proof (new_events_extends thought_is_stripped (_loop env n) w
                (stripped_loop env n w)) as H.
  induction H as [|e evs He _ IH]; [constructor|].
  change (e :: evs) with ([e] ++ evs). rewrite thought_entries_app.
  apply Forall_app. split; [|exact IH].
  destruct e as [ep r|l|secs|timeout]; try (cbn; constructor).
  cbn [thought_is_stripped] in He.
  cbn [thought_entries flat_map app]. rewrite app_nil_r.
  destruct (log_kind l); constructor; [|constructor].
  apply He. reflexivity.
Qed.


(** *** How the context begins *)

Lemma stays_rooted_refl (w : World) : stays_rooted w w.
Proof. intros H. exact H. Qed.

Lemma stays_rooted_trans (a b c : World) :
  stays_rooted a b -> stays_rooted b c -> stays_rooted a c.
Proof. unfold stays_rooted. auto. Qed.

#[local] Hint Resolve stays_rooted_refl stays_rooted_trans : frame.

Lemma rooted_modify (f : ISBE -> ISBE) :
  (forall o, context_rooted o -> context_rooted (f o)) ->
  ensures stays_rooted (modify f).
Proof. intros H [o n tr]. exact (H o). Qed.

Lemma rooted_emit (e : Event) : ensures stays_rooted (emit e).
Proof. intros w H. exact H. Qed.

Lemma rooted_ask {A} (q : nat -> A) : ensures stays_rooted (ask q).
Proof. intros w H. exact H. Qed.

(** Appending keeps the beginning; other assignments keep the context. *)
Lemma rooted_append (o : ISBE) (x : str) :
  context_rooted o ->
  context_rooted (set_context_text (context_text o ++ x) o).
Proof.
  unfold context_rooted. simpl_fields.
  intros [(rest & H) | (rest & H)]; [left | right];
    exists (rest ++ x); rewrite H, <- !app_assoc; reflexivity.
Qed.

Lemma rooted_same (o o' : ISBE) :
  context_text o' = context_text o -> seed_text o' = seed_text o ->
  tool_definitions o' = tool_definitions o ->
  context_rooted o -> context_rooted o'.
Proof.
  unfold context_rooted. intros -> -> ->. exact (fun H => H).
Qed.

Create HintDb rooted.
#[local] Hint Resolve rooted_emit rooted_ask : rooted.
#[local] Hint Extern 1 (ensures stays_rooted (modify _)) =>
  apply rooted_modify; intro;
  first [ apply rooted_same; reflexivity
        | apply rooted_append
        | intros _; right; eexists; reflexivity ] : rooted.

Section Rooted.

Variable env : Env.

Lemma rooted_generate (p : str) (mt : Z) (t : Q) :
  ensures stays_rooted (_generate env p mt t).
Proof.
  unfold _generate, _complete, _chat, post. repeat frame_step;
    auto with rooted.
Qed.

Lemma rooted_log (k : LogKind) (c : str) (meta : LogMeta) :
  ensures stays_rooted (_log k c meta).
Proof. unfold _log. repeat frame_step; auto with rooted. Qed.

#[local] Hint Resolve rooted_generate rooted_log : rooted.

Lemma rooted_compress : ensures stays_rooted (_compress env).
Proof.
  unfold _compress, compressed_context. repeat frame_step;
    auto with rooted.
Qed.

#[local] Hint Resolve rooted_compress : rooted.

Lemma rooted_compression_check : ensures stays_rooted (compression_check env).
Proof. unfold compression_check. repeat frame_step; auto with rooted. Qed.

#[local] Hint Resolve rooted_compression_check : rooted.

Lemma rooted_think_once : ensures stays_rooted (_think_once env).
Proof.
  unfold _think_once, think_guard, think_body, time_time.
  repeat frame_step; auto with rooted.
Qed.

Lemma rooted_respond (message : option str) :
  ensures stays_rooted (_respond_to_human env message).
Proof.
  intros [o n tr] H. cbn [self] in H.
  destruct (generate_answer env n (dialog_request o message))
    as [[text k]|] eqn:Hgen.
  - rewrite (respond_commit env o n tr message text k Hgen).
    rewrite finally_outcome. cbv zeta. cbn [snd self].
    rewrite then_ret_world.
    match goal with
    | |- context [compression_check env ?wc] =>
        pose proof (rooted_compression_check wc) as Hc
    end.
    eapply rooted_same; [reflexivity | reflexivity | reflexivity |].
    apply Hc. cbn [self]. unfold dialog_committed.
    rewrite <- app_assoc.
    apply (rooted_append (set_thinking true o)).
    eapply rooted_same; [reflexivity | reflexivity | reflexivity | exact H].
  - rewrite (respond_failure env o n tr message Hgen). cbn [snd self].
    eapply rooted_same; [reflexivity | reflexivity | reflexivity | exact H].
Qed.

#[local] Hint Resolve rooted_think_once rooted_respond : rooted.

Lemma rooted_externals : ensures stays_rooted (externals env).
Proof.
  unfold externals. repeat frame_step; auto with rooted.
  apply rooted_modify. intros o.
  destruct (external_keeps a o) as (_ & _ & _ & _ & H5).
  destruct (config_fold_external a o) as (_ & _ & _ & H4 & H6 & _).
  apply rooted_same; assumption.
Qed.

#[local] Hint Resolve rooted_externals : rooted.

Lemma rooted_loop_body : ensures stays_rooted (loop_body env).
Proof. unfold loop_body. repeat frame_step; auto with rooted. Qed.

#[local] Hint Resolve rooted_loop_body : rooted.

Lemma rooted_loop (n : nat) : ensures stays_rooted (_loop env n).
Proof.
  induction n as [|n IH]; cbn [_loop]; repeat frame_step; auto with rooted.
Qed.

End Rooted.

(** X21. How the context begins.  At the end of any number of loop
    iterations of any session the context begins with the seed, or, once
    a compression has replaced it, with [tool_definitions] and the
    core-memory tag: turns only append behind that beginning, so the tool
    block that a compression puts first stays first until the next
    compression puts it there again. *)
Theorem context_keeps_its_beginning
    (env : Env) (ti : Q) (mc ca : Z) (sn : str) (cs : option str)
    (id : str) (n : nat) :
  let o0 := __init__ ti mc ca sn cs in
  let o := self (snd (session env id n (mkWorld o0 O []))) in
  (exists rest, context_text o = seed_text o0 ++ rest)
  \/ (exists rest,
        context_text o
        = extract_tool_definitions (seed_text o0) ++ Lit.core_memory ++ rest).
Proof.
  intros o0 o.
  assert (Hcfg : seed_text o = seed_text o0
                 /\ tool_definitions o
                    = extract_tool_definitions (seed_text o0)).
  { unfold o, session, bind.
    destruct (start id (mkWorld o0 O [])) as [r w0] eqn:Es.
    assert (Hw0 : w0 = snd (start id (mkWorld o0 O [])))
      by (rewrite Es; reflexivity).
    assert (Hr : r = Ok tt)
      by (apply (f_equal fst) in Es; cbn [fst] in Es; subst r; reflexivity).
    subst r.
    destruct (config_loop env n w0) as (_ & _ & _ & H4 & H5 & _).
    rewrite H4, H5, Hw0. split; reflexivity. }
  assert (Hroot : context_rooted o).
  { unfold o, session, bind.
    destruct (start id (mkWorld o0 O [])) as [r w0] eqn:Es.
    assert (Hw0 : w0 = snd (start id (mkWorld o0 O [])))
      by (rewrite Es; reflexivity).
    assert (Hr : r = Ok tt)
      by (apply (f_equal fst) in Es; cbn [fst] in Es; subst r; reflexivity).
    subst r. apply (rooted_loop env n w0). rewrite Hw0.
    left. exists []. cbn. rewrite app_nil_r. reflexivity. }
  destruct Hcfg as [Hs Ht]. unfold context_rooted in Hroot.
  rewrite Hs, Ht in Hroot. exact Hroot.
Qed.


(** *** One slot for the submissions *)

Lemma tick_grows_refl (w : World) : tick_grows w w.
Proof. unfold tick_grows. lia. Qed.

Lemma tick_grows_trans (a b c : World) :
  tick_grows a b -> tick_grows b c -> tick_grows a c.
Proof. unfold tick_grows. lia. Qed.

#[local] Hint Resolve tick_grows_refl tick_grows_trans : frame.

Lemma tick_modify (f : ISBE -> ISBE) : ensures tick_grows (modify f).
Proof. intros w. apply Nat.le_refl. Qed.

Lemma tick_emit (e : Event) : ensures tick_grows (emit e).
Proof. intros w. apply Nat.le_refl. Qed.

Lemma tick_ask {A} (q : nat -> A) : ensures tick_grows (ask q).
Proof. intros w. apply Nat.le_succ_diag_r. Qed.

Create HintDb ticks.
#[local] Hint Resolve tick_modify tick_emit tick_ask : ticks.

Lemma tick_loop_body (env : Env) : ensures tick_grows (loop_body env).
Proof.
  unfold loop_body, _respond_to_human, _think_once, think_guard, think_body,
    compression_check, _compress, _log, _generate, _complete, _chat, post,
    time_time.
  repeat frame_step; auto with ticks.
Qed.

(** A later submission overwrites an earlier one that the loop has not
    seen. *)
Lemma speak_overwrites (xs : list External) (m : str) (o : ISBE) :
  Forall (fun x => exists m', x = ExtSpeak m') xs ->
  fold_left (fun o x => apply_external x o) (xs ++ [ExtSpeak m]) o
  = apply_external (ExtSpeak m) o.
Proof.
  intros H. revert o. induction H as [|x xs (m' & ->) _ IH]; intros o.
  - reflexivity.
  - cbn [app fold_left]. rewrite IH. reflexivity.
Qed.

(** From a tick past [t], the loop does not see what happened at [t]. *)
Lemma loop_past (env : Env) (t : nat) (m : str) (n : nat) (w : World) :
  (t < tick w)%nat -> _loop (only_last env t m) n w = _loop env n w.
Proof.
  revert w. induction n as [|n IH]; intros w Ht; [reflexivity|].
  rewrite !loop_unfold. cbv zeta. rewrite !externals_outcome.
  cbn [snd self arrivals only_last].
  destruct (Nat.eqb_spec (tick w) t) as [E|E]; [lia|].
  destruct (alive _); [|reflexivity].
  change (loop_body (only_last env t m)) with (loop_body env).
  match goal with
  | |- context [loop_body env ?w1] =>
      pose proof (tick_loop_body env w1) as Hk;
      destruct (loop_body env w1) as [[u|e] w2]
  end; cbn [fst snd] in Hk |- *; [|reflexivity].
  apply IH. unfold tick_grows in Hk. cbn [tick] in Hk. lia.
Qed.

(** X22. The hand-off has one slot.  When several callers submit before
    the loop looks, the loop sees the last message only: everything it
    does from then on (results, object, tick and trace, in any number of
    iterations) is what it would have done had that last message been
    the only submission.  The earlier messages reach neither the backend
    nor the context nor the log. *)
Theorem last_submission_wins
    (env : Env) (n : nat) (w : World) (xs : list External) (m : str) :
  Forall (fun x => exists m', x = ExtSpeak m') xs ->
  arrivals env (tick w) = xs ++ [ExtSpeak m] ->
  _loop env n w = _loop (only_last env (tick w) m) n w.
Proof.
  intros Hxs Harr. destruct n as [|n]; [reflexivity|].
  rewrite !loop_unfold. cbv zeta. rewrite !externals_outcome.
  cbn [snd self arrivals only_last]. rewrite Nat.eqb_refl, Harr.
  rewrite (speak_overwrites xs m (self w) Hxs). cbn [fold_left].
  destruct (alive _); [|reflexivity].
  change (loop_body (only_last env (tick w) m)) with (loop_body env).
  match goal with
  | |- context [loop_body env ?w1] =>
      pose proof (tick_loop_body env w1) as Hk;
      destruct (loop_body env w1) as [[u|e] w2]
  end; cbn [fst snd] in Hk |- *; [|reflexivity].
  symmetry. apply loop_past. unfold tick_grows in Hk. cbn [tick] in Hk. lia.
Qed.

(** An instance: ["b..."] then ["hi"] are submitted before the loop first
    looks; the dialog call carries ["hi"]. *)
Lemma last_submission_wins_witness :
  let env := Scenario.mock_with (fun _ => Some (Scenario.hi, 2))
               (fun t => if (t =? 0)%nat
                         then [ExtSpeak Scenario.b30; ExtSpeak Scenario.hi]
                         else []) in
  _loop env 2 Scenario.started
  = _loop (only_last env 0 Scenario.hi) 2 Scenario.started.
Proof.
  intros env.
  apply (last_submission_wins env 2 Scenario.started
           [ExtSpeak Scenario.b30] Scenario.hi).
  - constructor; [exists Scenario.b30; reflexivity | constructor].
  - reflexivity.
Defined.
